(** * The [vip wp] remote command session manager (src/bin/vip-wp.js)

    A shallow embedding of the event handlers of [vip wp]: the prompt
    loop, the dispatcher hand-shake, the session transport, the stream
    coordinator with its reconnect logic, the output offset tracker and
    the interrupt handling.  It follows the version of the file that
    tracks [currentOffset], reconnects and knows [--log].

    JavaScript runs every handler to completion up to its next [await];
    the rest of the handler is then parked until the awaited promise is
    settled.  The embedding keeps this structure: a handler is a
    computation in a small state-and-output monad, an [await] parks a
    [Pending] continuation in the world, and the settling of a promise is
    an event of its own ([EvResolve]).  What the program does to the
    outside (console, streams, sockets, remote calls, process exit) is
    recorded as a list of [Effect]s.

    Two things the program relies on are the work of libraries, and the
    embedding follows them: readline splits what is written to it into
    lines ([subShellRl_write]), and a stream of socket.io-stream that
    the program ends emits its ['end'] on the next tick, before
    anything else happens ([end_stream], [nextTick]). *)

From Stdlib Require Import List String Ascii ZArith Bool Lia Arith.
Import ListNotations.

Local Open Scope string_scope.
Local Open Scope Z_scope.

(** ** Strings, as the handlers use them *)

Module Str.

(** [s.startsWith( p )] *)
Definition startsWith (s p : string) : bool := String.prefix p s.

(** [s.includes( p )] *)
Definition includes (s p : string) : bool :=
  match String.index 0 p s with Some _ => true | None => false end.

(** [s.replace( pat, rep )] with a string pattern: only the first
    occurrence is replaced, wherever it stands. *)
Definition replace (s pat rep : string) : string :=
  match String.index 0 pat s with
  | Some i =>
      String.substring 0 i s ++ rep
      ++ String.substring (i + String.length pat)
           (String.length s - (i + String.length pat)) s
  | None => s
  end.

(** [l.join( sep )] *)
Definition join (sep : string) (l : list string) : string :=
  String.concat sep l.

(** [l.slice( 0, n )] *)
Definition slice0 {A} (n : nat) (l : list A) : list A := firstn n l.

(** Splits a string at its last ["="]. *)
Fixpoint split_last_eq (s : string) : option (string * string) :=
  match s with
  | EmptyString => None
  | String c s' =>
      match split_last_eq s' with
      | Some (a, b) => Some (String c a, b)
      | None => if Ascii.eqb c "="%char then Some (EmptyString, s') else None
      end
  end.

(** A line terminator, which [.] of a regular expression does not
    match (the strings of the model are ASCII). *)
Definition is_line_terminator (c : ascii) : bool :=
  Ascii.eqb c "010"%char || Ascii.eqb c "013"%char.

Fixpoint has_line_terminator (s : string) : bool :=
  match s with
  | EmptyString => false
  | String c s' => is_line_terminator c || has_line_terminator s'
  end.

(** [s.split( re )] where [re] is a carriage return with a line feed,
    a line feed, or a carriage return: the pieces between the line
    breaks, the last one included (there is always one). *)
Fixpoint split_lines (s : string) : list string :=
  match s with
  | EmptyString => [EmptyString]
  | String c s' =>
      if Ascii.eqb c "013"%char then
        match s' with
        | String c' s'' =>
            if Ascii.eqb c' "010"%char then EmptyString :: split_lines s''
            else EmptyString :: split_lines s'
        | EmptyString => EmptyString :: split_lines s'
        end
      else if Ascii.eqb c "010"%char then EmptyString :: split_lines s'
      else match split_lines s' with
           | piece :: pieces => String c piece :: pieces
           | [] => [String c EmptyString]
           end
  end.

End Str.

(** [requoteArgs] of lib/cli/format: options with a value that holds a
    space get the value quoted, other arguments with a space are quoted
    whole.  The regular expression of the source (two greedy groups
    around an equals sign, anchored at both ends, after a leading [--])
    matches a whole argument that starts with [--], has no line
    terminator and is split at its last [=]; where it does not match,
    [replace] returns the argument as it is. *)
Definition dquote : string := String "034"%char EmptyString.

Definition requoteArg (arg : string) : string :=
  if Str.includes arg "--" && Str.includes arg "=" && Str.includes arg " " then
    if Str.startsWith arg "--" then
      let rest := String.substring 2 (String.length arg - 2) arg in
      if Str.has_line_terminator rest then arg
      else match Str.split_last_eq rest with
           | Some (a, b) => "--" ++ a ++ "=" ++ dquote ++ b ++ dquote
           | None => arg
           end
    else arg
  else if Str.includes arg " " then dquote ++ arg ++ dquote
  else arg.

Definition requoteArgs (args : list string) : list string :=
  map requoteArg args.

(** ** Constants *)

Definition NON_TTY_COLUMNS : Z := 100.
Definition NON_TTY_ROWS : Z := 15.

(** ['\x03'] *)
Definition cancelCommandChar : string := String "003"%char EmptyString.

(** ** Invocation: arguments, options and the selected app and environment *)

(** The [--log] option: absent, given bare ([true]), or given a command id. *)
Inductive LogOpt :=
| LogUnset
| LogTrue
| LogId (id : string).

(** JavaScript truthiness of [opts.log]: the empty string is falsy. *)
Definition log_truthy (l : LogOpt) : bool :=
  match l with
  | LogUnset => false
  | LogTrue => true
  | LogId id => negb (String.eqb id "")
  end.

(** [opts.log === true] *)
Definition log_is_true (l : LogOpt) : bool :=
  match l with LogTrue => true | _ => false end.

(** The guid of a command: a string from the dispatcher or from
    [--log <id>]; [{ guid: opts.log }] copies whatever [opts.log] holds. *)
Inductive Guid :=
| GuidStr (s : string)
| GuidTrue
| GuidUndefined.

Definition log_guid (l : LogOpt) : Guid :=
  match l with
  | LogUnset => GuidUndefined
  | LogTrue => GuidTrue
  | LogId id => GuidStr id
  end.

Record Config := mkConfig {
  args : list string;
  opt_yes : bool;
  opt_log : LogOpt;
  appId : Z;
  appName : string;
  orgId : Z;
  envId : Z;
  envName : string;            (* [opts.env.type] *)
  primaryDomain : string;
  tty_columns : Z;             (* [process.stdout.columns], 0 when not a TTY *)
  tty_rows : Z
}.

(** [x || d] on numbers: 0 (and undefined, modelled as 0) is falsy. *)
Definition or_default (x d : Z) : Z := if x =? 0 then d else x.

Section Invocation.

Variable cfg : Config.

Definition isSubShell : bool :=
  Nat.eqb (List.length (args cfg)) 0 && negb (log_truthy (opt_log cfg)).

Definition quotedArgs : list string := requoteArgs (args cfg).

Definition cmd : string := Str.join " " quotedArgs.

Definition commandForAnalytics : string :=
  Str.join " " (Str.slice0 2 quotedArgs).

End Invocation.

(** ** What the program does to the outside *)

(** The object sent with the [cmd] event. *)
Record CmdData := mkCmdData {
  cd_guid : Guid;
  cd_inputToken : option string;
  cd_columns : Z;
  cd_rows : Z;
  cd_offset : Z;
  cd_commandAction : option string
}.

Inductive Effect :=
| EStdoutWrite (s : string)            (* [process.stdout.write] *)
| EStdinWrite (s : string)             (* [process.stdin.write] *)
| ELog (s : string)                    (* [console.log] of one message *)
| EErrorLine (msg : string)            (* [console.log( chalk.red( 'Error:' ), msg )] *)
| EConsoleError (s : string)           (* [console.error] *)
| EWelcome                             (* the subshell greeting *)
| EListCommand (startedAt command guid : string)
| EFailedToGetCommands (app : Z) (msg : string)
| ETrackEvent (name : string)
| ERollbarError (e : string)
| ERollbarInfo (g : Guid)
| EDisableGlobalGraphQLErrorHandling
| EConfirm (value : string)            (* the production confirmation prompt *)
| EListingQuery (app : Z)              (* call of [getEnvCompletedCommands] *)
| EDispatch (app env : Z) (command : string)   (* call of [getTokenForCommand] *)
| ETokenGet                            (* [Token.get()] *)
| ESocketOpen (sock : nat)             (* [SocketIO( ... )] *)
| ECmdEmit (sock : nat) (d : CmdData) (stdin stdout : nat)
| ESocketClose (sock : nat)
| EStreamWrite (stream : nat) (data : string)
| EStreamEnd (stream : nat)            (* [stream.end()] *)
| ERlPrompt
| ERlPause
| ERlResume
| ERlClose
| ERlClearLine
| EThrow (what : string)               (* an exception that nothing catches *)
| EExit (code : Z).                    (* [process.exit] *)

(** ** The world: the module's variables, the closure of the command
    callback, the listeners and pipes, and the parked continuations *)

(** What [launchCommandAndGetStreams] returns; sockets and streams are
    named by the number they got when they were created. *)
Record Job := mkJob {
  stdinStream : nat;
  stdoutStream : nat;
  socket : nat
}.

(** One command of the listing query. *)
Record CommandNode := mkCommandNode {
  cn_startedAt : string;
  cn_command : string;
  cn_guid : string
}.

(** One environment of the listing query. *)
Record Environment := mkEnvironment {
  env_id : Z;
  env_name : string;
  env_commands : list CommandNode
}.

(** The rest of a handler after an [await]. *)
Inductive Pending :=
| PListing                             (* [await getEnvCompletedCommands( appId )] *)
| PConfirm                             (* [await confirm( ... )] *)
| PDispatch (line : string)            (* [await getTokenForCommand( ... )] *)
| PLaunchLine (guid : Guid) (inputToken : option string)
    (commandAction : option string)    (* [await launchCommandAndGetStreams], line handler *)
| PLaunchReconnect (guid : Guid) (inputToken : option string)
    (offset : Z)                       (* the same, reconnect handler *)
| PEndTrack                            (* [await trackEvent( 'wpcli_command_end' )] *)
| PSigintTrack.                        (* [await trackEvent( 'wpcli_cancel_command' )] *)

Record World := mkWorld {
  currentJob : option Job;
  currentOffset : Z;
  commandRunning : bool;
  countSIGINT : Z;
  commandAction : option string;
  muted : bool;
  (* set once the readline interface exists and its handlers are bound *)
  rlReady : bool;
  (* number of sockets and streams created so far *)
  nextId : nat;
  (* streams with the offset-tracking ['data'] listener, one entry each *)
  dataL : list nat;
  (* streams [bindStreamEvents] was called on, one entry per call *)
  boundL : list nat;
  (* ['reconnect'] and ['reconnect_attempt'] listeners with what their
     closure holds: [cliCommand.guid] and [inputToken] *)
  reconnL : list (nat * (Guid * option string));
  (* sockets with the ['unauthorized'], ['cancel'] and ['error'] listeners *)
  socketL : list nat;
  (* destinations [process.stdin] is piped into, as the [pipe] and
     [unpipe] calls of the program leave them *)
  stdinPipes : list nat;
  (* streams piped into [process.stdout] *)
  stdoutPipes : list nat;
  (* streams that are closed: they have emitted ['end'] or ['error'],
     or the program has ended them *)
  endedL : list nat;
  (* the next-tick queue: streams that [end()] has been called on and
     that have yet to emit their ['end'] *)
  ticks : list nat;
  pending : list Pending;
  (* the environments array of the listing result, after [find] *)
  listing : option (list Environment);
  exited : option Z
}.

Definition init : World :=
  mkWorld None 0 false 0 None false false 0 [] [] [] [] [] [] [] [] [] None None.

Definition set_currentJob v w := mkWorld v (currentOffset w) (commandRunning w) (countSIGINT w) (commandAction w) (muted w) (rlReady w) (nextId w) (dataL w) (boundL w) (reconnL w) (socketL w) (stdinPipes w) (stdoutPipes w) (endedL w) (ticks w) (pending w) (listing w) (exited w).
Definition set_currentOffset v w := mkWorld (currentJob w) v (commandRunning w) (countSIGINT w) (commandAction w) (muted w) (rlReady w) (nextId w) (dataL w) (boundL w) (reconnL w) (socketL w) (stdinPipes w) (stdoutPipes w) (endedL w) (ticks w) (pending w) (listing w) (exited w).
Definition set_commandRunning v w := mkWorld (currentJob w) (currentOffset w) v (countSIGINT w) (commandAction w) (muted w) (rlReady w) (nextId w) (dataL w) (boundL w) (reconnL w) (socketL w) (stdinPipes w) (stdoutPipes w) (endedL w) (ticks w) (pending w) (listing w) (exited w).
Definition set_countSIGINT v w := mkWorld (currentJob w) (currentOffset w) (commandRunning w) v (commandAction w) (muted w) (rlReady w) (nextId w) (dataL w) (boundL w) (reconnL w) (socketL w) (stdinPipes w) (stdoutPipes w) (endedL w) (ticks w) (pending w) (listing w) (exited w).
Definition set_commandAction v w := mkWorld (currentJob w) (currentOffset w) (commandRunning w) (countSIGINT w) v (muted w) (rlReady w) (nextId w) (dataL w) (boundL w) (reconnL w) (socketL w) (stdinPipes w) (stdoutPipes w) (endedL w) (ticks w) (pending w) (listing w) (exited w).
Definition set_muted v w := mkWorld (currentJob w) (currentOffset w) (commandRunning w) (countSIGINT w) (commandAction w) v (rlReady w) (nextId w) (dataL w) (boundL w) (reconnL w) (socketL w) (stdinPipes w) (stdoutPipes w) (endedL w) (ticks w) (pending w) (listing w) (exited w).
Definition set_rlReady v w := mkWorld (currentJob w) (currentOffset w) (commandRunning w) (countSIGINT w) (commandAction w) (muted w) v (nextId w) (dataL w) (boundL w) (reconnL w) (socketL w) (stdinPipes w) (stdoutPipes w) (endedL w) (ticks w) (pending w) (listing w) (exited w).
Definition set_nextId v w := mkWorld (currentJob w) (currentOffset w) (commandRunning w) (countSIGINT w) (commandAction w) (muted w) (rlReady w) v (dataL w) (boundL w) (reconnL w) (socketL w) (stdinPipes w) (stdoutPipes w) (endedL w) (ticks w) (pending w) (listing w) (exited w).
Definition set_dataL v w := mkWorld (currentJob w) (currentOffset w) (commandRunning w) (countSIGINT w) (commandAction w) (muted w) (rlReady w) (nextId w) v (boundL w) (reconnL w) (socketL w) (stdinPipes w) (stdoutPipes w) (endedL w) (ticks w) (pending w) (listing w) (exited w).
Definition set_boundL v w := mkWorld (currentJob w) (currentOffset w) (commandRunning w) (countSIGINT w) (commandAction w) (muted w) (rlReady w) (nextId w) (dataL w) v (reconnL w) (socketL w) (stdinPipes w) (stdoutPipes w) (endedL w) (ticks w) (pending w) (listing w) (exited w).
Definition set_reconnL v w := mkWorld (currentJob w) (currentOffset w) (commandRunning w) (countSIGINT w) (commandAction w) (muted w) (rlReady w) (nextId w) (dataL w) (boundL w) v (socketL w) (stdinPipes w) (stdoutPipes w) (endedL w) (ticks w) (pending w) (listing w) (exited w).
Definition set_socketL v w := mkWorld (currentJob w) (currentOffset w) (commandRunning w) (countSIGINT w) (commandAction w) (muted w) (rlReady w) (nextId w) (dataL w) (boundL w) (reconnL w) v (stdinPipes w) (stdoutPipes w) (endedL w) (ticks w) (pending w) (listing w) (exited w).
Definition set_stdinPipes v w := mkWorld (currentJob w) (currentOffset w) (commandRunning w) (countSIGINT w) (commandAction w) (muted w) (rlReady w) (nextId w) (dataL w) (boundL w) (reconnL w) (socketL w) v (stdoutPipes w) (endedL w) (ticks w) (pending w) (listing w) (exited w).
Definition set_stdoutPipes v w := mkWorld (currentJob w) (currentOffset w) (commandRunning w) (countSIGINT w) (commandAction w) (muted w) (rlReady w) (nextId w) (dataL w) (boundL w) (reconnL w) (socketL w) (stdinPipes w) v (endedL w) (ticks w) (pending w) (listing w) (exited w).
Definition set_endedL v w := mkWorld (currentJob w) (currentOffset w) (commandRunning w) (countSIGINT w) (commandAction w) (muted w) (rlReady w) (nextId w) (dataL w) (boundL w) (reconnL w) (socketL w) (stdinPipes w) (stdoutPipes w) v (ticks w) (pending w) (listing w) (exited w).
Definition set_ticks v w := mkWorld (currentJob w) (currentOffset w) (commandRunning w) (countSIGINT w) (commandAction w) (muted w) (rlReady w) (nextId w) (dataL w) (boundL w) (reconnL w) (socketL w) (stdinPipes w) (stdoutPipes w) (endedL w) v (pending w) (listing w) (exited w).
Definition set_pending v w := mkWorld (currentJob w) (currentOffset w) (commandRunning w) (countSIGINT w) (commandAction w) (muted w) (rlReady w) (nextId w) (dataL w) (boundL w) (reconnL w) (socketL w) (stdinPipes w) (stdoutPipes w) (endedL w) (ticks w) v (listing w) (exited w).
Definition set_listing v w := mkWorld (currentJob w) (currentOffset w) (commandRunning w) (countSIGINT w) (commandAction w) (muted w) (rlReady w) (nextId w) (dataL w) (boundL w) (reconnL w) (socketL w) (stdinPipes w) (stdoutPipes w) (endedL w) (ticks w) (pending w) v (exited w).
Definition set_exited v w := mkWorld (currentJob w) (currentOffset w) (commandRunning w) (countSIGINT w) (commandAction w) (muted w) (rlReady w) (nextId w) (dataL w) (boundL w) (reconnL w) (socketL w) (stdinPipes w) (stdoutPipes w) (endedL w) (ticks w) (pending w) (listing w) v.

(** ** The handler monad

    A handler reads and writes the world and emits effects.  It ends
    either by running off its end ([Cont]) or at once ([Stop]): by
    [process.exit], which marks the world as exited, or by an exception
    that nothing catches. *)

Inductive Res (A : Type) :=
| Cont (a : A) (w : World) (out : list Effect)
| Stop (w : World) (out : list Effect).
Arguments Cont {A} a w out.
Arguments Stop {A} w out.

Definition M (A : Type) : Type := World -> Res A.

Definition ret {A} (a : A) : M A := fun w => Cont a w [].

Definition bind {A B} (m : M A) (k : A -> M B) : M B :=
  fun w =>
    match m w with
    | Cont a w1 o1 =>
        match k a w1 with
        | Cont b w2 o2 => Cont b w2 (o1 ++ o2)
        | Stop w2 o2 => Stop w2 (o1 ++ o2)
        end
    | Stop w1 o1 => Stop w1 o1
    end.

Declare Scope handler_scope.
Delimit Scope handler_scope with handler.
Notation "x <- c1 ;; c2" := (bind c1 (fun x => c2))
  (at level 61, c1 at next level, right associativity) : handler_scope.
Notation "c1 ;; c2" := (bind c1 (fun _ => c2))
  (at level 61, right associativity) : handler_scope.
Local Open Scope handler_scope.

Definition get : M World := fun w => Cont w w [].
Definition modify (f : World -> World) : M unit := fun w => Cont tt (f w) [].
Definition emit (e : Effect) : M unit := fun w => Cont tt w [e].

(** [process.exit( code )]; without an argument the code is 0, as
    nothing in the program sets [process.exitCode]. *)
Definition exit {A} (code : Z) : M A :=
  fun w => Stop (set_exited (Some code) w) [EExit code].

Definition throw {A} (what : string) : M A := fun w => Stop w [EThrow what].

(** [await]: the continuation is parked and the handler returns. *)
Definition await (p : Pending) : M unit :=
  modify (fun w => set_pending (pending w ++ [p]) w).

(** [IOStream.createStream()], [SocketIO( ... )]: a new object. *)
Definition fresh : M nat :=
  fun w => Cont (nextId w) (set_nextId (S (nextId w)) w) [].

Definition when (b : bool) (h : M unit) : M unit := if b then h else ret tt.

(** An [async] listener: an exception inside it rejects its promise and
    does not reach the emitter; [process.exit] ends everything. *)
Definition async (h : M unit) : M unit :=
  fun w =>
    match h w with
    | Cont a w1 o => Cont a w1 o
    | Stop w1 o => match exited w1 with Some _ => Stop w1 o | None => Cont tt w1 o end
    end.

(** [l.forEach( f )] *)
Fixpoint forEach {A} (l : list A) (f : A -> M unit) : M unit :=
  match l with
  | [] => ret tt
  | a :: l' => f a ;; forEach l' f
  end.

(** The listeners of one emitter for one event run in the order they
    were added; [n] of them are the same handler. *)
Fixpoint each (n : nat) (h : M unit) : M unit :=
  match n with
  | O => ret tt
  | S n' => h ;; each n' h
  end.

Definition listeners (s : nat) (l : list nat) : nat := count_occ Nat.eq_dec l s.

(** [pipes.splice( pipes.indexOf( dest ), 1 )] of [unpipe] *)
Fixpoint remove_first (s : nat) (l : list nat) : list nat :=
  match l with
  | [] => []
  | x :: l' => if Nat.eqb x s then l' else x :: remove_first s l'
  end.

(** ** Results of the awaited calls

    A promise outside a [try] that is rejected, or never settled,
    leaves its continuation parked for good: that is no event.  The
    dispatcher call is inside a [try], its failures are answers. *)

Inductive DispatchResult :=
| DispatchOk (guid : string) (inputToken : string)
| DispatchGraphQLErrors (messages : list string)   (* [e.graphQLErrors] *)
| DispatchOtherError (e : string).

Inductive ListingResult :=
| ListingOk (environments : list Environment)
| ListingFailed (message : string).    (* the query threw; [res] is undefined *)

Inductive Answer :=
| AUnit                                (* [trackEvent], [Token.get] *)
| AConfirm (yes : bool)
| ADispatch (r : DispatchResult)
| AListing (r : ListingResult).

(** ** Events: what the runtime delivers to the program

    Streams and sockets are named by their numbers; an event for a
    stream or socket without a listener for it passes without effect.
    The runtime may deliver any event at any time: what socket.io and
    the streams really emit is a subset of it.  The ['end'] of a stream
    that the program itself has ended is no event of the runtime: it
    comes on the next tick after the call, see [nextTick]. *)

Inductive Event :=
| EvLine (line : string)               (* readline ['line'] *)
| EvSIGINT                             (* readline ['SIGINT'] *)
| EvStdinData (data : string)          (* [process.stdin] ['data'] *)
| EvStreamData (stream : nat) (data : string)
| EvStreamEnd (stream : nat)
| EvStreamError (stream : nat) (message : string)
| EvReconnect (sock : nat)
| EvReconnectAttempt (sock : nat)
| EvCancel (sock : nat) (message : string)
| EvUnauthorized (sock : nat) (message : string)
| EvSocketError (sock : nat) (err : string)
| EvIOStreamError (sock : nat) (err : string)
| EvResolve (i : nat) (a : Answer).    (* the [i]-th parked continuation resumes *)

(** ** The listing of [--log] without an id *)

(** [console.log( new Date( c.startedAt ), c.command, c.guid )] *)
Definition printListedCommand (c : CommandNode) : Effect :=
  EListCommand (cn_startedAt c) (cn_command c) (cn_guid c).

Definition set_env_id (e : Environment) (id : Z) : Environment :=
  mkEnvironment id (env_name e) (env_commands e).

(** [environments.find( e => e.id = envId )]: the callback assigns
    [envId] to the [id] of the environment it is given and returns the
    assigned value, so [find] stops at the first environment when
    [envId] is truthy (not 0) and runs through all of them when it is
    not.  The second component is the array after the call. *)
Fixpoint find_assigning_id (target : Z) (envs : list Environment)
  : option Environment * list Environment :=
  match envs with
  | [] => (None, [])
  | e :: rest =>
      let e' := set_env_id e target in
      if target =? 0 then
        let r := find_assigning_id target rest in (fst r, e' :: snd r)
      else (Some e', e' :: rest)
  end.

Section Program.

Variable cfg : Config.

(** *** Stream coordinator *)

Definition pipeStreamsToProcess (stdin out : nat) : M unit :=
  modify (fun w => set_stdinPipes (stdinPipes w ++ [stdin]) w) ;;
  modify (fun w => set_stdoutPipes (stdoutPipes w ++ [out]) w).

Definition unpipeStreamsFromProcess (stdin out : nat) : M unit :=
  modify (fun w => set_stdinPipes (remove_first stdin (stdinPipes w)) w) ;;
  modify (fun w => set_stdoutPipes (remove_first out (stdoutPipes w)) w).

(** A stream of socket.io-stream listens to its own ['end'] and
    ['error'] and is closed from then on; a number that names no stream
    yet names nothing that could be closed. *)
Definition close_stream (s : nat) : M unit :=
  modify (fun w =>
    set_endedL (if (s <? nextId w)%nat then endedL w ++ [s] else endedL w) w).

(** [stream.end()] on a stream of socket.io-stream, whose streams are
    not left half open: a stream that is not closed yet is closed and
    emits its ['end'] on the next tick, that is when the listener that
    made the call has returned, before a parked continuation resumes
    and before another event is delivered; on a closed stream the call
    does nothing. *)
Definition end_stream (s : nat) : M unit :=
  emit (EStreamEnd s) ;;
  w <- get ;;
  when (negb (existsb (Nat.eqb s) (endedL w)))
    (modify (fun w => set_ticks (ticks w ++ [s]) (set_endedL (endedL w ++ [s]) w))).

(** The ['error'] listener of [bindStreamEvents]. *)
Definition on_stream_error (message : string) : M unit :=
  modify (set_commandRunning false) ;;
  emit (ELog ("Error: " ++ message)).

(** The ['end'] listener of [bindStreamEvents], up to its [await]. *)
Definition on_stream_end : M unit :=
  emit ERlClearLine ;;
  modify (set_commandRunning false) ;;
  emit (ETrackEvent "wpcli_command_end") ;;
  await PEndTrack.

(** The rest of the ['end'] listener. *)
Definition on_stream_end_resumed : M unit :=
  w <- get ;;
  match currentJob w with
  | None => throw "TypeError"
  | Some job =>
      emit (ESocketClose (socket job)) ;;
      unpipeStreamsFromProcess (stdinStream job) (stdoutStream job) ;;
      modify (set_currentOffset 0) ;;
      if negb (isSubShell cfg)
      then emit ERlClose ;; exit 0
      else emit ERlResume ;; emit ERlPrompt
  end.

Definition bindStreamEvents (stdoutStream : nat) : M unit :=
  modify (fun w => set_boundL (boundL w ++ [stdoutStream]) w).

(** The next-tick queue is run: every stream in it emits its ['end'],
    which goes to the ['end'] listeners of [bindStreamEvents]. *)
Definition nextTick : M unit :=
  w <- get ;;
  modify (set_ticks []) ;;
  forEach (ticks w) (fun s =>
    w' <- get ;; each (listeners s (boundL w')) (async on_stream_end)).

(** *** Session transport *)

(** The ['data'] listener of the output stream: the offset tracker. *)
Definition on_stream_data (data : string) : M unit :=
  modify (fun w =>
    set_currentOffset (Z.of_nat (String.length data) + currentOffset w) w).

(** [launchCommandAndGetStreams] after [Token.get()] has resolved. *)
Definition launchCommandAndGetStreams (guid : Guid) (inputToken : option string)
    (offset : Z) (action : option string) : M Job :=
  sock <- fresh ;;
  emit (ESocketOpen sock) ;;
  out <- fresh ;;
  inp <- fresh ;;
  modify (fun w => set_dataL (dataL w ++ [out]) w) ;;
  emit (ECmdEmit sock
          (mkCmdData guid inputToken
             (or_default (tty_columns cfg) NON_TTY_COLUMNS)
             (or_default (tty_rows cfg) NON_TTY_ROWS)
             offset action)
          inp out) ;;
  modify (fun w => set_socketL (socketL w ++ [sock]) w) ;;
  ret (mkJob inp out sock).

Definition on_unauthorized (message : string) : M unit :=
  emit (ELog ("There was an error with the authentication: " ++ message)).

Definition on_cancel (sock : nat) (message : string) : M unit :=
  emit (ELog ("Cancel received from server: " ++ message)) ;;
  emit (ESocketClose sock) ;;
  exit 1.

Definition on_iostream_error (err : string) : M unit :=
  emit (ERollbarError err).

Definition on_socket_error (err : string) : M unit :=
  if String.eqb err "Rate limit exceeded"
  then emit (ELog (String "010"%char
                     "Error: Rate limit exceeded: Please wait a moment and try again."))
  else emit (ERollbarError err) ;; emit (ELog err).

(** *** Reconnect controller *)

(** The ['reconnect'] listener up to its [await]; [offset: currentOffset]
    is read when the call is made. *)
Definition on_reconnect (guid : Guid) (inputToken : option string) : M unit :=
  w <- get ;;
  match currentJob w with
  | None => throw "TypeError"
  | Some job =>
      unpipeStreamsFromProcess (stdinStream job) (stdoutStream job) ;;
      emit (ETrackEvent "wpcli_command_reconnect") ;;
      emit ETokenGet ;;
      await (PLaunchReconnect guid inputToken (currentOffset w))
  end.

Definition on_reconnect_resumed (guid : Guid) (inputToken : option string)
    (offset : Z) : M unit :=
  job <- launchCommandAndGetStreams guid inputToken offset None ;;
  modify (set_currentJob (Some job)) ;;
  pipeStreamsToProcess (stdinStream job) (stdoutStream job) ;;
  bindStreamEvents (stdoutStream job) ;;
  emit ERlResume.

(** The ['reconnect_attempt'] listener: stdin goes to a placeholder and
    [currentJob.stdoutStream] is replaced by a new stream. *)
Definition on_reconnect_attempt : M unit :=
  w <- get ;;
  match currentJob w with
  | None => throw "TypeError"
  | Some job =>
      modify (fun w => set_stdinPipes (remove_first (stdinStream job) (stdinPipes w)) w) ;;
      placeholder <- fresh ;;
      modify (fun w => set_stdinPipes (stdinPipes w ++ [placeholder]) w) ;;
      out <- fresh ;;
      modify (set_currentJob (Some (mkJob (stdinStream job) out (socket job)))) ;;
      bindStreamEvents out ;;
      emit (EConsoleError "There was an error connecting to the server. Retrying...")
  end.

(** *** Prompt loop *)

(** The line handler from the call of [launchCommandAndGetStreams] to
    its [await]; the argument object, [commandAction] included, is
    built when the call is made. *)
Definition line_launch (line : string) (guid : Guid)
    (inputToken : option string) : M unit :=
  when (Str.includes line "'") (emit (ERollbarInfo guid)) ;;
  w <- get ;;
  emit ETokenGet ;;
  await (PLaunchLine guid inputToken (commandAction w)).

(** The ['line'] listener up to its first [await]. *)
Definition on_line (line : string) : M unit :=
  w <- get ;;
  if commandRunning w then ret tt
  else if String.eqb line "" then emit ERlPrompt
  else
    when (Str.startsWith line "exit") (emit ERlClose ;; exit 0) ;;
    let startsWithWp := Str.startsWith line "wp " in
    let empty := Nat.eqb (String.length line) 0 in
    let userCmdCancelled := String.eqb line cancelCommandChar in
    if (empty || negb startsWithWp) && negb userCmdCancelled
       && negb (log_truthy (opt_log cfg))
    then
      emit (EErrorLine "invalid command, please pass a valid WP CLI command.") ;;
      emit ERlPrompt
    else
      emit ERlPause ;;
      if negb (log_truthy (opt_log cfg)) then
        emit (EDispatch (appId cfg) (envId cfg) (Str.replace line "wp " "")) ;;
        await (PDispatch line)
      else
        modify (set_commandAction (Some "logs")) ;;
        line_launch line (log_guid (opt_log cfg)) None.

(** The line handler after [getTokenForCommand] has settled. *)
Definition on_line_dispatched (line : string) (r : DispatchResult) : M unit :=
  let failed : M unit :=
    if negb (isSubShell cfg)
    then emit ERlClose ;; exit 1
    else emit ERlPrompt in
  match r with
  | DispatchGraphQLErrors messages =>
      forEach messages (fun message => emit (EErrorLine message)) ;;
      failed
  | DispatchOtherError e =>
      emit (ERollbarError e) ;;
      emit (ELog e) ;;
      failed
  | DispatchOk guid inputToken =>
      line_launch line (GuidStr guid) (Some inputToken)
  end.

(** The line handler after [launchCommandAndGetStreams] has returned. *)
Definition on_line_launched (guid : Guid) (inputToken : option string)
    (action : option string) : M unit :=
  job <- launchCommandAndGetStreams guid inputToken 0 action ;;
  modify (set_currentJob (Some job)) ;;
  pipeStreamsToProcess (stdinStream job) (stdoutStream job) ;;
  modify (set_commandRunning true) ;;
  bindStreamEvents (stdoutStream job) ;;
  modify (fun w => set_reconnL (reconnL w ++ [(socket job, (guid, inputToken))]) w).

(** The ['data'] listener of [process.stdin] that restores the newline
    readline strips. *)
Definition on_stdin_data (data : string) : M unit :=
  w <- get ;;
  when (commandRunning w && String.eqb data (String "013"%char ""))
    match currentJob w with
    | Some job => emit (EStreamWrite (stdinStream job) (String "010"%char ""))
    | None => ret tt
    end.

(** *** Interrupts *)

(** The ['SIGINT'] listener up to its [await]. *)
Definition on_SIGINT : M unit :=
  w <- get ;;
  when (countSIGINT w >=? 1) (exit 0) ;;
  modify (fun w => set_countSIGINT (countSIGINT w + 1) w) ;;
  emit (EStdinWrite cancelCommandChar) ;;
  match currentJob w with
  | Some job => end_stream (stdoutStream job)
  | None => ret tt
  end ;;
  emit (ETrackEvent "wpcli_cancel_command") ;;
  await PSigintTrack.

Definition on_SIGINT_resumed : M unit :=
  emit (ELog "Command cancelled by user") ;;
  w <- get ;;
  when (negb (commandRunning w)) (exit 0).

(** *** The command callback *)

(** [subShellRl.write( data )] on a terminal: readline splits the data
    at its line breaks and emits a ['line'] for every piece but the
    last, which stays in its line buffer.  The ['line'] listener is
    called for each in turn and runs up to its first [await]. *)
Definition subShellRl_write (data : string) : M unit :=
  forEach (removelast (Str.split_lines data)) (fun line => async (on_line line)).

(** From the creation of the readline interface to the end. *)
Definition main_prompt : M unit :=
  emit EDisableGlobalGraphQLErrorHandling ;;
  modify (set_rlReady true) ;;
  if negb (isSubShell cfg) then
    modify (set_muted true) ;;
    subShellRl_write ("wp " ++ cmd cfg ++ String "010"%char "") ;;
    modify (set_muted false)
  else emit ERlPrompt.

(** From [trackEvent( 'wpcli_command_execute' )] on. *)
Definition main_execute : M unit :=
  emit (ETrackEvent "wpcli_command_execute") ;;
  if isSubShell cfg then
    emit (EStdoutWrite (String "027"%char "[?25h")) ;;
    emit EWelcome ;;
    main_prompt
  else if String.eqb (envName cfg) "production" then
    if opt_yes cfg then main_prompt
    else emit (EConfirm ("wp " ++ cmd cfg)) ;; await PConfirm
  else main_prompt.

Definition main_confirmed (yes : bool) : M unit :=
  if negb yes then
    emit (ETrackEvent "wpcli_confirm_cancel") ;;
    emit (ELog "Command cancelled") ;;
    exit 0
  else main_prompt.

Definition main : M unit :=
  if log_is_true (opt_log cfg)
  then emit (EListingQuery (appId cfg)) ;; await PListing
  else main_execute.

(** After [getEnvCompletedCommands] has returned. *)
Definition main_listed (r : ListingResult) : M unit :=
  match r with
  | ListingFailed message =>
      emit (ERollbarError message) ;;
      emit (EFailedToGetCommands (appId cfg) message) ;;
      throw "TypeError"
  | ListingOk environments =>
      let found := find_assigning_id (envId cfg) environments in
      modify (set_listing (Some (snd found))) ;;
      match fst found with
      | None => throw "TypeError"
      | Some env =>
          forEach (env_commands env) (fun c => emit (printListedCommand c)) ;;
          exit 0
      end
  end.

(** *** The event loop *)

Fixpoint remove_nth {A} (i : nat) (l : list A) : list A :=
  match l, i with
  | [], _ => []
  | _ :: l', O => l'
  | x :: l', S i' => x :: remove_nth i' l'
  end.

(** The continuation a parked [await] resumes with, when the answer is
    of the kind it waits for. *)
Definition resume (p : Pending) (a : Answer) : option (M unit) :=
  match p, a with
  | PListing, AListing r => Some (main_listed r)
  | PConfirm, AConfirm yes => Some (main_confirmed yes)
  | PDispatch line, ADispatch r => Some (on_line_dispatched line r)
  | PLaunchLine guid inputToken action, AUnit =>
      Some (on_line_launched guid inputToken action)
  | PLaunchReconnect guid inputToken offset, AUnit =>
      Some (on_reconnect_resumed guid inputToken offset)
  | PEndTrack, AUnit => Some on_stream_end_resumed
  | PSigintTrack, AUnit => Some on_SIGINT_resumed
  | _, _ => None
  end.

Definition on_resolve (i : nat) (a : Answer) : M unit :=
  w <- get ;;
  match nth_error (pending w) i with
  | Some p =>
      match resume p a with
      | Some h =>
          modify (fun w => set_pending (remove_nth i (pending w)) w) ;;
          async h
      | None => ret tt
      end
  | None => ret tt
  end.

(** The ['reconnect'] and ['reconnect_attempt'] listeners of a socket. *)
Definition reconnect_listeners (sock : nat)
    (l : list (nat * (Guid * option string))) : list (Guid * option string) :=
  map snd (filter (fun x => Nat.eqb (fst x) sock) l).

(** Delivery of one event to the listeners bound for it; the listeners
    are those bound when the event is emitted.  A stream that emits
    ['end'] or ['error'] is closed by then.  The interrupt listener is
    the only one that ends a stream, so the next tick is run when it
    has returned. *)
Definition handle (ev : Event) : M unit :=
  w <- get ;;
  match ev with
  | EvLine line => when (rlReady w) (async (on_line line))
  | EvSIGINT => when (rlReady w) (async on_SIGINT ;; nextTick)
  | EvStdinData data =>
      when (rlReady w) (on_stdin_data data) ;;
      forEach (stdinPipes w) (fun dest => emit (EStreamWrite dest data))
  | EvStreamData s data =>
      each (listeners s (dataL w)) (on_stream_data data) ;;
      each (listeners s (stdoutPipes w)) (emit (EStdoutWrite data))
  | EvStreamEnd s =>
      close_stream s ;;
      each (listeners s (boundL w)) (async on_stream_end)
  | EvStreamError s message =>
      close_stream s ;;
      each (listeners s (boundL w)) (on_stream_error message)
  | EvReconnect sock =>
      forEach (reconnect_listeners sock (reconnL w))
        (fun c => async (on_reconnect (fst c) (snd c)))
  | EvReconnectAttempt sock =>
      forEach (reconnect_listeners sock (reconnL w))
        (fun _ => on_reconnect_attempt)
  | EvCancel sock message =>
      each (listeners sock (socketL w)) (on_cancel sock message)
  | EvUnauthorized sock message =>
      each (listeners sock (socketL w)) (on_unauthorized message)
  | EvSocketError sock err =>
      each (listeners sock (socketL w)) (on_socket_error err)
  | EvIOStreamError sock err =>
      each (listeners sock (socketL w)) (on_iostream_error err)
  | EvResolve i a => on_resolve i a
  end.

Definition exec (h : M unit) (w : World) : World * list Effect :=
  match h w with
  | Cont _ w' out => (w', out)
  | Stop w' out => (w', out)
  end.

(** One turn of the event loop; nothing runs after [process.exit]. *)
Definition step (w : World) (ev : Event) : World * list Effect :=
  match exited w with
  | Some _ => (w, [])
  | None => exec (handle ev) w
  end.

Fixpoint run (w : World) (evs : list Event) : World * list Effect :=
  match evs with
  | [] => (w, [])
  | ev :: evs' =>
      let r := step w ev in
      let r' := run (fst r) evs' in
      (fst r', (snd r ++ snd r')%list)
  end.

(** The program from its start: the command callback, then the events. *)
Definition start : World * list Effect := exec main init.

Definition session (evs : list Event) : World * list Effect :=
  let r := run (fst start) evs in
  (fst r, (snd start ++ snd r)%list).

End Program.



(** * Notions the properties are stated with *)

(** The world and the output a handler ends with, however it ends. *)
Definition final {A} (r : Res A) : World * list Effect :=
  match r with
  | Cont _ w out => (w, out)
  | Stop w out => (w, out)
  end.

(** [R w w' out] relates the world before a computation to the world
    and the output after it; [sat R h] says that [h] respects it from
    every world. *)
Definition sat (R : World -> World -> list Effect -> Prop) {A} (h : M A) : Prop :=
  forall w, R w (fst (final (h w))) (snd (final (h w))).


(** What a list of effects writes to [process.stdin]. *)
Definition stdinWrites (out : list Effect) : list string :=
  flat_map (fun e => match e with EStdinWrite s => [s] | _ => [] end) out.

(** What the ['end'] listeners of [bindStreamEvents] do up to their
    [await], however many of them run: the process stays as alive as it
    was, the flag [commandRunning] is not switched on, continuations
    are parked behind those that wait already, nothing is written to
    stdin and nothing is put into the next-tick queue. *)
Definition ends_streams (w w' : World) (out : list Effect) : Prop :=
  exited w' = exited w
  /\ rlReady w' = rlReady w
  /\ countSIGINT w' = countSIGINT w
  /\ boundL w' = boundL w
  /\ ticks w' = ticks w
  /\ (commandRunning w = false -> commandRunning w' = false)
  /\ (exists parked, pending w' = (pending w ++ parked)%list)
  /\ stdinWrites out = [].

(** The calls of the dispatcher in a list of effects. *)
Definition dispatchCalls (out : list Effect) : list string :=
  flat_map (fun e => match e with EDispatch _ _ c => [c] | _ => [] end) out.

(** ** Example invocations *)

(** [vip @site.develop -- wp], the subshell. *)
Definition subshell_cfg : Config :=
  mkConfig [] false LogUnset 7 "site" 3 11 "develop" "example.com" 0 0.

(** [vip @site.production -- wp option get siteurl], one command. *)
Definition oneshot_cfg : Config :=
  mkConfig ["option"; "get"; "siteurl"] false LogUnset 7 "site" 3 11
    "production" "example.com" 80 24.

(** ** Example sessions *)

(** A command is typed in the subshell, the dispatcher accepts it and
    the session transport opens: socket 0, output stream 1, input
    stream 2. *)
Definition launch_events : list Event :=
  [EvLine "wp option get siteurl";
   EvResolve 0 (ADispatch (DispatchOk "g1" "tok"));
   EvResolve 0 AUnit].

Definition running_world : World := fst (session subshell_cfg launch_events).






(** The validation message of the prompt loop. *)
Definition invalid_command : Effect :=
  EErrorLine "invalid command, please pass a valid WP CLI command.".

(** The subshell at its first prompt. *)
Definition idle_world : World := fst (start subshell_cfg).

(** The one command of [oneshot_cfg] waits for the dispatcher. *)
Definition oneshot_dispatching : World :=
  fst (session oneshot_cfg [EvResolve 0 (AConfirm true)]).

(** A line of the subshell waits for the dispatcher. *)
Definition subshell_dispatching : World :=
  fst (session subshell_cfg [EvLine "wp option get siteurl"]).

(** [vip @site.production -- wp --log] : the listing. *)
Definition listing_cfg : Config :=
  mkConfig [] false LogTrue 7 "site" 3 11 "production" "example.com" 80 24.

Definition listed_environments : list Environment :=
  [mkEnvironment 10 "develop" [mkCommandNode "t0" "wp cache flush" "g-dev"];
   mkEnvironment 11 "production" [mkCommandNode "t1" "wp core version" "g-prod"]].

(** The answer to the production confirmation prompt, which is the
    first thing the command callback waits for. *)
Definition is_confirm_answer (ev : Event) : bool :=
  match ev with
  | EvResolve O (AConfirm _) => true
  | _ => false
  end.

(** The world while the confirmation prompt is open. *)
Definition confirming : World := set_pending [PConfirm] init.



(** Whether the command callback asks for confirmation before it goes
    on: a production environment without [--yes]. *)
Definition needs_confirm (cfg : Config) : bool :=
  String.eqb (envName cfg) "production" && negb (opt_yes cfg).


(** ** The running flag and the pipes *)

(** Process stdin and stdout are piped to the stream pair of the
    current job. *)
Definition piped (w : World) : Prop :=
  match currentJob w with
  | Some job =>
      In (stdinStream job) (stdinPipes w) /\ In (stdoutStream job) (stdoutPipes w)
  | None => False
  end.

(** The flag is not switched on. *)
Definition never_on (w w' : World) (_ : list Effect) : Prop :=
  commandRunning w' = true -> commandRunning w = true.

(** The resolution of a promise without a value: [Token.get] or
    [trackEvent]. *)
Definition is_unit_resolve (ev : Event) : bool :=
  match ev with
  | EvResolve _ AUnit => true
  | _ => false
  end.

(** The running command of [running_world] after an error on its
    output stream. *)
Definition errored_world : World :=
  fst (run subshell_cfg running_world [EvStreamError 1 "socket hang up"]).

(** The pipes and the current job are left as they are. *)
Definition keeps_pipes (w w' : World) (_ : list Effect) : Prop :=
  stdinPipes w' = stdinPipes w /\ stdoutPipes w' = stdoutPipes w
  /\ currentJob w' = currentJob w.

(** The subshell while the transport of its first command is opened. *)
Definition launching_world : World :=
  fst (session subshell_cfg
         [EvLine "wp option get siteurl";
          EvResolve 0 (ADispatch (DispatchOk "g1" "tok"))]).

(** ** The output offset *)

(** [l1 + ... + ln] for the chunks of a list of events. *)
Fixpoint chunk_total (evs : list Event) : Z :=
  match evs with
  | [] => 0
  | EvStreamData _ data :: evs' => Z.of_nat (String.length data) + chunk_total evs'
  | _ :: evs' => chunk_total evs'
  end.

(** Streams are numbered as they are created, the offset listener is
    put once on a stream that has just been created, and the reconnect
    listeners are bound when there is a current job. *)
Definition wf (w : World) : Prop :=
  NoDup (dataL w)
  /\ Forall (fun s => (s < nextId w)%nat) (dataL w)
  /\ (reconnL w = [] \/ currentJob w <> None).

Definition keeps_wf (w w' : World) (_ : list Effect) : Prop := wf w -> wf w'.

(** What may happen while one logical command is in progress: a chunk
    arrives on an output stream of a session (a stream with the offset
    listener) while the process is alive; the rest of an ['end']
    listener does not run, as the command is not completed. Any other
    event may happen. *)
Definition allowed (w : World) (ev : Event) : Prop :=
  match ev with
  | EvStreamData s _ => exited w = None /\ In s (dataL w)
  | EvResolve i AUnit => nth_error (pending w) i <> Some PEndTrack
  | _ => True
  end.

Fixpoint in_progress (cfg : Config) (w : World) (evs : list Event) : Prop :=
  match evs with
  | [] => True
  | ev :: evs' => allowed w ev /\ in_progress cfg (fst (step cfg w ev)) evs'
  end.

Definition keeps_offset (w w' : World) (_ : list Effect) : Prop :=
  currentOffset w' = currentOffset w.

(** The continuations the ['reconnect'] listeners of a socket park when
    the offset is [offset]. *)
Definition reopenings (sock : nat) (offset : Z) (w : World) : list Pending :=
  map (fun c => PLaunchReconnect (fst c) (snd c) offset)
    (reconnect_listeners sock (reconnL w)).

(** The running command of [running_world] receives two chunks, the
    connection is lost and found again, and a third chunk arrives on
    the new output stream (stream 6). *)
Definition chunks_and_reconnect : list Event :=
  [EvStreamData 1 "hello"; EvStreamData 1 ", "; EvReconnectAttempt 0;
   EvReconnect 0; EvResolve 0 AUnit; EvStreamData 6 "world"].

(** The first command receives a chunk and then its output stream
    fails; no ['end'] follows. *)
Definition first_command_fails : list Event :=
  launch_events ++ [EvStreamData 1 "hello"; EvStreamError 1 "socket hang up"].

Definition after_failed_command : World :=
  fst (session subshell_cfg first_command_fails).

(** The next command: socket 3, output stream 4, input stream 5. *)
Definition second_command : list Event :=
  [EvLine "wp option get home";
   EvResolve 0 (ADispatch (DispatchOk "g2" "tok2"));
   EvResolve 0 AUnit;
   EvStreamData 4 "abc"].

(** ** Further notions *)

(** What a list of effects writes to [process.stdout]. *)
Definition stdoutWrites (out : list Effect) : list string :=
  flat_map (fun e => match e with EStdoutWrite s => [s] | _ => [] end) out.

(** The next-tick queue stays empty. *)
Definition keeps_queue_empty (w w' : World) (_ : list Effect) : Prop :=
  ticks w = [] -> ticks w' = [].

(** The interrupt counter is 0 or 1. *)
Definition counter_small (w : World) : Prop := 0 <= countSIGINT w <= 1.

Definition keeps_counter_small (w w' : World) (_ : list Effect) : Prop :=
  counter_small w -> counter_small w'.

(** The process is not ended. *)
Definition stays_alive (w w' : World) (_ : list Effect) : Prop :=
  exited w = None -> exited w' = None.

(** What the transport and the dispatcher bring about: the events of
    the streams and of the sockets but the server's ['cancel'], data on
    stdin, and the answers the line handler, the reconnect handler and
    the ['end'] listener wait for. *)
Definition from_transport (w : World) (ev : Event) : Prop :=
  match ev with
  | EvLine _ | EvSIGINT | EvCancel _ _ => False
  | EvResolve i a =>
      match nth_error (pending w) i with
      | Some PListing | Some PConfirm | Some PSigintTrack => False
      | _ => True
      end
  | _ => True
  end.

(** The pipes only name streams that exist. *)
Definition pipes_known (w : World) : Prop :=
  Forall (fun s => (s < nextId w)%nat) (stdinPipes w)
  /\ Forall (fun s => (s < nextId w)%nat) (stdoutPipes w).

Definition keeps_pipes_known (w w' : World) (_ : list Effect) : Prop :=
  pipes_known w -> pipes_known w'.

(** [vip @site.develop -- wp option get siteurl], one command on an
    environment that is not production. *)
Definition develop_cfg : Config :=
  mkConfig ["option"; "get"; "siteurl"] false LogUnset 7 "site" 3 11
    "develop" "example.com" 80 24.

(** * Strings *)

Lemma prefix_append (p s : string) : String.prefix p (p ++ s) = true.
Proof.
  induction p as [| c p IH]; cbn.
  - destruct s; reflexivity.
  - destruct (ascii_dec c c) as [_ | H]; [exact IH | contradiction].
Qed.

Lemma index_prefix (p s : string) :
  String.prefix p s = true -> String.index 0 p s = Some 0%nat.
Proof.
  intro H. destruct s as [| c s]; cbn [String.index].
  - destruct p; [reflexivity | discriminate].
  - rewrite H. reflexivity.
Qed.

Lemma substring_whole (s : string) : String.substring 0 (String.length s) s = s.
Proof. induction s as [| c s IH]; cbn; [reflexivity | rewrite IH; reflexivity]. Qed.

Lemma substring_skip (p s : string) :
  String.substring (String.length p) (String.length s) (p ++ s) = s.
Proof.
  induction p as [| c p IH]; cbn [String.length String.append String.substring].
  - apply substring_whole.
  - exact IH.
Qed.

Lemma length_append (p s : string) :
  String.length (p ++ s) = (String.length p + String.length s)%nat.
Proof. induction p as [| c p IH]; cbn; [reflexivity | rewrite IH; reflexivity]. Qed.

(** Replacing a prefix by nothing leaves the rest. *)
Lemma replace_prefix (p s : string) : Str.replace (p ++ s) p "" = s.
Proof.
  unfold Str.replace. rewrite (index_prefix p (p ++ s) (prefix_append p s)).
  cbn [Nat.add]. rewrite length_append.
  replace (String.length p + String.length s - String.length p)%nat
    with (String.length s) by lia.
  rewrite substring_skip.
  destruct (p ++ s); reflexivity.
Qed.

Lemma includes_append (a p b : string) : Str.includes (a ++ p ++ b) p = true.
Proof.
  unfold Str.includes.
  induction a as [| c a IH]; cbn [String.append].
  - rewrite (index_prefix p (p ++ b) (prefix_append p b)). reflexivity.
  - cbn [String.index].
    destruct (String.prefix p (String c (a ++ p ++ b))); [reflexivity |].
    destruct (String.index 0 p (a ++ p ++ b)); [reflexivity | discriminate].
Qed.

Lemma append_assoc (a b c : string) : ((a ++ b) ++ c = a ++ (b ++ c))%string.
Proof. induction a as [| x a IH]; cbn; [reflexivity | rewrite IH; reflexivity]. Qed.

Lemma prefix_empty (s : string) : String.prefix "" s = true.
Proof. destruct s; reflexivity. Qed.

(** A string without ["="] has no last ["="]. *)
Lemma split_last_eq_none (v : string) :
  Str.includes v "=" = false -> Str.split_last_eq v = None.
Proof.
  unfold Str.includes.
  induction v as [| c v IH]; intro H; cbn [Str.split_last_eq]; [reflexivity |].
  cbn [String.index String.prefix] in H.
  destruct (ascii_dec "=" c) as [E | E].
  - rewrite prefix_empty in H. discriminate.
  - destruct (String.index 0 "=" v) eqn:Hi; [discriminate |].
    rewrite (IH eq_refl).
    destruct (Ascii.eqb_spec c "="%char) as [E' | _]; [congruence | reflexivity].
Qed.

Lemma split_last_eq_append (k v : string) :
  Str.split_last_eq v = None ->
  Str.split_last_eq (k ++ "=" ++ v) = Some (k, v).
Proof.
  intro Hv. induction k as [| c k IH]; cbn [String.append Str.split_last_eq].
  - rewrite Hv. reflexivity.
  - cbn [String.append] in IH. rewrite IH. reflexivity.
Qed.

Lemma substring_after (p s : string) :
  String.substring (String.length p) (String.length (p ++ s) - String.length p) (p ++ s)
  = s.
Proof.
  rewrite length_append.
  replace (String.length p + String.length s - String.length p)%nat
    with (String.length s) by lia.
  apply substring_skip.
Qed.

(** A line without a line break, followed by a line feed, is split
    into that line and an empty rest. *)
Lemma split_lines_line (x : string) :
  Str.has_line_terminator x = false ->
  Str.split_lines (x ++ String "010"%char "") = [x; ""].
Proof.
  induction x as [| c x IH]; intro H; cbn [String.append Str.split_lines].
  - reflexivity.
  - cbn [Str.has_line_terminator] in H. apply orb_false_elim in H.
    destruct H as [Hc Hx]. unfold Str.is_line_terminator in Hc.
    apply orb_false_elim in Hc. destruct Hc as [Hlf Hcr].
    rewrite Hcr, Hlf, (IH Hx). reflexivity.
Qed.

(** A first line without a line break is split off at a line feed. *)
Lemma split_lines_cons (x y : string) :
  Str.has_line_terminator x = false ->
  Str.split_lines (x ++ String "010"%char y) = x :: Str.split_lines y.
Proof.
  induction x as [| c x IH]; intro H; cbn [String.append Str.split_lines].
  - reflexivity.
  - cbn [Str.has_line_terminator] in H. apply orb_false_elim in H.
    destruct H as [Hc Hx]. unfold Str.is_line_terminator in Hc.
    apply orb_false_elim in Hc. destruct Hc as [Hlf Hcr].
    rewrite Hcr, Hlf, (IH Hx). reflexivity.
Qed.

(** * Reasoning about handlers *)

Arguments Str.startsWith : simpl never.
Arguments Str.includes : simpl never.
Arguments Str.replace : simpl never.
Arguments String.eqb : simpl never.
Arguments String.append : simpl never.
Arguments isSubShell : simpl never.
Arguments cmd : simpl never.
Arguments log_truthy : simpl never.
Arguments or_default : simpl never.
Arguments Z.add : simpl never.
Arguments Z.geb : simpl never.
Arguments Z.of_nat : simpl never.


Lemma exec_final (h : M unit) (w : World) : exec h w = final (h w).
Proof. reflexivity. Qed.

(** ** Relations every handler satisfies

    [R w w' out] relates the world before a computation to the world
    and the output after it.  A relation that holds of doing nothing
    and composes along sequencing is inherited by [bind], the loops,
    [async], one step and whole runs. *)

Section Sat.

Variable R : World -> World -> list Effect -> Prop.
Hypothesis R_refl : forall w, R w w [].
Hypothesis R_trans : forall w w1 w2 o1 o2,
  R w w1 o1 -> R w1 w2 o2 -> R w w2 (o1 ++ o2).


Lemma sat_ret {A} (a : A) : sat R (ret a).
Proof. intro w. apply R_refl. Qed.

Lemma sat_get : sat R get.
Proof. intro w. apply R_refl. Qed.

Lemma sat_bind {A B} (m : M A) (k : A -> M B) :
  sat R m -> (forall a, sat R (k a)) -> sat R (bind m k).
Proof.
  intros Hm Hk w. unfold bind.
  specialize (Hm w). destruct (m w) as [a w1 o1 | w1 o1]; cbn in *; auto.
  specialize (Hk a w1). destruct (k a w1) as [b w2 o2 | w2 o2]; cbn in *; eauto.
Qed.

Lemma sat_when (b : bool) (h : M unit) : sat R h -> sat R (when b h).
Proof. destruct b; cbn; auto using sat_ret. Qed.

Lemma sat_async (h : M unit) : sat R h -> sat R (async h).
Proof.
  intros H w. unfold async. specialize (H w).
  destruct (h w) as [a w1 o1 | w1 o1]; cbn in *; auto.
  destruct (exited w1); cbn; auto.
Qed.

Lemma sat_forEach {A} (l : list A) (f : A -> M unit) :
  (forall a, sat R (f a)) -> sat R (forEach l f).
Proof.
  intro H. induction l as [| a l IH]; cbn [forEach].
  - apply sat_ret.
  - apply sat_bind; auto.
Qed.

Lemma sat_each (n : nat) (h : M unit) : sat R h -> sat R (each n h).
Proof.
  intro H. induction n as [| n IH]; cbn [each].
  - apply sat_ret.
  - apply sat_bind; auto.
Qed.

Lemma sat_exec (h : M unit) (w : World) :
  sat R h -> R w (fst (exec h w)) (snd (exec h w)).
Proof. intro H. rewrite exec_final. apply H. Qed.

End Sat.

Ltac unfold_handlers :=
  unfold handle, on_resolve, on_line, line_launch, on_line_dispatched,
    on_line_launched, on_stdin_data, on_SIGINT, on_SIGINT_resumed,
    main, main_execute, main_confirmed, main_prompt, main_listed,
    on_reconnect, on_reconnect_resumed, on_reconnect_attempt,
    launchCommandAndGetStreams, on_unauthorized, on_cancel,
    on_iostream_error, on_socket_error, on_stream_data, on_stream_error,
    on_stream_end, on_stream_end_resumed, bindStreamEvents,
    pipeStreamsToProcess, unpipeStreamsFromProcess, await,
    nextTick, end_stream, close_stream, subShellRl_write.

(** Walks through a handler along [bind], the loops and the branches;
    [leaf] closes what is left: [modify], [emit], [exit], [throw],
    [fresh]. *)
Ltac sat_walk Hrefl Htrans leaf :=
  repeat first
    [ apply (sat_ret _ Hrefl)
    | apply (sat_get _ Hrefl)
    | apply (sat_bind _ Htrans); [ | intro ]
    | apply (sat_when _ Hrefl)
    | apply (sat_async _)
    | apply (sat_forEach _ Hrefl Htrans); intro
    | apply (sat_each _ Hrefl Htrans)
    | match goal with
      | |- sat _ (if ?b then _ else _) => destruct b eqn:?
      | |- sat _ (match ?x with _ => _ end) => destruct x eqn:?
      end
    | progress cbv zeta
    | progress unfold_handlers
    | solve [ leaf ] ].

(** Runs the monad operations of the goal as far as they go. *)
Ltac mred :=
  cbv beta iota zeta delta
    [bind get when modify emit ret exit throw fresh await async exec final];
  cbn [fst snd currentJob currentOffset commandRunning countSIGINT commandAction muted rlReady nextId dataL boundL reconnL socketL stdinPipes stdoutPipes endedL ticks pending listing exited
       set_currentJob set_currentOffset set_commandRunning set_countSIGINT set_commandAction set_muted set_rlReady set_nextId set_dataL set_boundL set_reconnL set_socketL set_stdinPipes set_stdoutPipes set_endedL set_ticks set_pending set_listing set_exited].

(** ** The interrupt counter and the readline flag only grow *)






(** ** From handlers to steps and runs *)

Section Runs.

Variable cfg : Config.
Variable R : World -> World -> list Effect -> Prop.
Hypothesis R_refl : forall w, R w w [].
Hypothesis R_trans : forall w w1 w2 o1 o2,
  R w w1 o1 -> R w1 w2 o2 -> R w w2 (o1 ++ o2).
Hypothesis R_handle : forall ev, sat R (handle cfg ev).

Lemma step_sat w ev : R w (fst (step cfg w ev)) (snd (step cfg w ev)).
Proof.
  unfold step. destruct (exited w); cbn [fst snd]; auto.
  apply sat_exec. apply R_handle.
Qed.

Lemma run_sat w evs : R w (fst (run cfg w evs)) (snd (run cfg w evs)).
Proof.
  revert w. induction evs as [| ev evs IH]; intro w; cbn [run fst snd]; auto.
  eapply R_trans; [apply step_sat | apply IH].
Qed.

End Runs.

Lemma run_app cfg w evs1 evs2 :
  run cfg w (evs1 ++ evs2) =
  (fst (run cfg (fst (run cfg w evs1)) evs2),
   snd (run cfg w evs1) ++ snd (run cfg (fst (run cfg w evs1)) evs2))%list.
Proof.
  revert w. induction evs1 as [| ev evs1 IH]; intro w; cbn [run app fst snd].
  - destruct (run cfg w evs2); reflexivity.
  - rewrite IH. cbn [fst snd]. rewrite app_assoc. reflexivity.
Qed.

Lemma step_exited cfg w ev c : exited w = Some c -> step cfg w ev = (w, []).
Proof. intro H. unfold step. rewrite H. reflexivity. Qed.

Lemma run_exited cfg w evs c : exited w = Some c -> run cfg w evs = (w, []).
Proof.
  intro H. induction evs as [| ev evs IH]; cbn [run]; auto.
  rewrite (step_exited cfg w ev c H). cbn [fst snd]. rewrite IH. reflexivity.
Qed.

(** Once the process has exited it stays exited. *)
Lemma run_stays_exited cfg w evs :
  exited w <> None -> exited (fst (run cfg w evs)) <> None.
Proof.
  intro H. destruct (exited w) as [c |] eqn:E; [| congruence].
  rewrite (run_exited cfg w evs c E). cbn. congruence.
Qed.


(** ** Resumed continuations *)

Lemma final_async (h : M unit) (w : World) : final (async h w) = final (h w).
Proof.
  unfold async. destruct (h w) as [a w1 o | w1 o]; [reflexivity |].
  destruct (exited w1); reflexivity.
Qed.

(** A parked continuation that gets its answer runs from the world
    without it. *)
Lemma step_resolve cfg w i p a h :
  exited w = None -> nth_error (pending w) i = Some p ->
  resume cfg p a = Some h ->
  step cfg w (EvResolve i a) = final (h (set_pending (remove_nth i (pending w)) w)).
Proof.
  intros Hex Hp Hr. unfold step. rewrite Hex. unfold handle, on_resolve. mred.
  rewrite Hp, Hr. mred.
  destruct (h _) as [u w1 o | w1 o]; cbn [final app];
    [reflexivity |].
  destruct (exited w1); reflexivity.
Qed.

(** ** Interrupts *)



(** The ['end'] listener up to its [await]. *)
Lemma stream_end_listener w :
  async on_stream_end w =
  Cont tt (set_pending (pending w ++ [PEndTrack]) (set_commandRunning false w))
    [ERlClearLine; ETrackEvent "wpcli_command_end"].
Proof. reflexivity. Qed.

Lemma ends_streams_refl w : ends_streams w w [].
Proof.
  unfold ends_streams. repeat split; auto.
  exists []. rewrite app_nil_r. reflexivity.
Qed.

Lemma ends_streams_trans w w1 w2 o1 o2 :
  ends_streams w w1 o1 -> ends_streams w1 w2 o2 -> ends_streams w w2 (o1 ++ o2).
Proof.
  unfold ends_streams.
  intros [H1 [H2 [H3 [H4 [H4' [H5 [[p1 H6] H7]]]]]]]
         [K1 [K2 [K3 [K4 [K4' [K5 [[p2 K6] K7]]]]]]].
  repeat split; try congruence; auto.
  - exists (p1 ++ p2)%list. rewrite K6, H6, app_assoc. reflexivity.
  - unfold stdinWrites in *. rewrite flat_map_app, H7, K7. reflexivity.
Qed.

(** The ['end'] listeners of one stream: none of them stops, and where
    there is one the flag is off afterwards. *)
Lemma each_stream_end n : forall w,
  exists w1 o1,
    each n (async on_stream_end) w = Cont tt w1 o1
    /\ ends_streams w w1 o1
    /\ (n <> 0%nat -> commandRunning w1 = false).
Proof.
  induction n as [| n IH]; intro w; cbn [each].
  - exists w, []. split; [reflexivity |]. split; [apply ends_streams_refl |].
    intro H. contradiction.
  - unfold bind at 1. rewrite stream_end_listener.
    destruct (IH (set_pending (pending w ++ [PEndTrack]) (set_commandRunning false w)))
      as [w1 [o1 [E [[H1 [H2 [H3 [H4 [H4' [H5 [[p H6] H7]]]]]]] _]]]].
    rewrite E. eexists. eexists. split; [reflexivity |].
    cbn [exited rlReady countSIGINT boundL ticks commandRunning pending
         set_pending set_commandRunning] in *.
    split; [| intros _; apply H5; reflexivity].
    unfold ends_streams.
    split; [exact H1 |]. split; [exact H2 |]. split; [exact H3 |].
    split; [exact H4 |]. split; [exact H4' |].
    split; [intros _; apply H5; reflexivity |]. split.
    + exists ([PEndTrack] ++ p)%list. rewrite H6, app_assoc. reflexivity.
    + unfold stdinWrites in *. cbn [flat_map app]. exact H7.
Qed.

(** The streams of the next-tick queue emit ['end'] one after the
    other. *)
Lemma tick_streams l : forall w,
  exists w1 o1,
    forEach l (fun s =>
      w' <- get ;; each (listeners s (boundL w')) (async on_stream_end)) w
    = Cont tt w1 o1
    /\ ends_streams w w1 o1
    /\ ((exists s, In s l /\ In s (boundL w)) -> commandRunning w1 = false).
Proof.
  set (f := fun s : nat =>
              w' <- get ;; each (listeners s (boundL w')) (async on_stream_end)).
  induction l as [| a l IH]; intro w; cbn [forEach].
  - exists w, []. split; [reflexivity |]. split; [apply ends_streams_refl |].
    intros [s [[] _]].
  - destruct (each_stream_end (listeners a (boundL w)) w) as [w1 [o1 [E1 [R1 F1]]]].
    assert (Ef : f a w = Cont tt w1 o1).
    { unfold f, bind, get. rewrite E1. reflexivity. }
    unfold bind at 1. rewrite Ef.
    destruct (IH w1) as [w2 [o2 [E2 [R2 F2]]]]. rewrite E2.
    eexists. eexists. split; [reflexivity |].
    split; [apply (ends_streams_trans w w1 w2); assumption |].
    intros [s [[Hs | Hs] Hb]].
    + subst a.
      destruct R2 as [_ [_ [_ [_ [_ [K _]]]]]]. apply K. apply F1.
      unfold listeners. intro H0.
      apply (count_occ_not_In Nat.eq_dec) in H0. contradiction.
    + apply F2. exists s. split; [exact Hs |].
      destruct R1 as [_ [_ [_ [Hb1 _]]]]. rewrite Hb1. exact Hb.
Qed.

(** The next tick: the queue is emptied, and what the ['end'] listeners
    do is all that happens. *)
Lemma nextTick_ends w :
  exists w1 o1,
    nextTick w = Cont tt w1 o1
    /\ ends_streams (set_ticks [] w) w1 o1
    /\ ((exists s, In s (ticks w) /\ In s (boundL w)) -> commandRunning w1 = false).
Proof.
  pose proof (tick_streams (ticks w) (set_ticks [] w)) as T.
  unfold nextTick.
  set (f := fun s : nat =>
              w' <- get ;; each (listeners s (boundL w')) (async on_stream_end)) in *.
  destruct T as [w1 [o1 [E [R F]]]].
  cbv beta iota delta [bind get modify]. rewrite E.
  eexists. eexists. split; [reflexivity |].
  split; [exact R | exact F].
Qed.

Lemma existsb_eqb_false s l :
  ~ In s l -> existsb (Nat.eqb s) l = false.
Proof.
  intro H. destruct (existsb (Nat.eqb s) l) eqn:E; [| reflexivity].
  apply existsb_exists in E. destruct E as [x [Hx Heq]].
  apply Nat.eqb_eq in Heq. subst x. contradiction.
Qed.

(** The first interrupt, up to the [await] of its handler: the counter
    is 1, the cancellation byte is written, the output stream of the
    job is ended, and the rest of the handler is parked. *)
Lemma on_SIGINT_first w :
  countSIGINT w = 0 ->
  exists w1 out,
    on_SIGINT w = Cont tt w1 out
    /\ exited w1 = exited w /\ rlReady w1 = rlReady w /\ countSIGINT w1 = 1
    /\ commandRunning w1 = commandRunning w /\ boundL w1 = boundL w
    /\ pending w1 = (pending w ++ [PSigintTrack])%list
    /\ stdinWrites out = [cancelCommandChar]
    /\ (forall job, currentJob w = Some job ->
          In (EStreamEnd (stdoutStream job)) out
          /\ (~ In (stdoutStream job) (endedL w) -> In (stdoutStream job) (ticks w1))).
Proof.
  intro Hc. unfold on_SIGINT, end_stream. mred. rewrite Hc.
  change (0 >=? 1) with false. mred.
  destruct (currentJob w) as [job |]; mred.
  - destruct (existsb (Nat.eqb (stdoutStream job)) (endedL w)) eqn:E; mred;
      eexists; eexists; (split; [reflexivity |]);
      cbn [exited rlReady countSIGINT commandRunning boundL pending ticks
           set_pending set_countSIGINT set_ticks set_endedL];
      rewrite ?Hc;
      do 7 (split; [reflexivity |]);
      intros job0 Hj; inversion Hj; subst job0;
      (split; [cbn; tauto |]).
    + intro Hn. rewrite (existsb_eqb_false _ _ Hn) in E. discriminate.
    + intros _. apply in_or_app. right. left. reflexivity.
  - eexists. eexists. split; [reflexivity |].
    cbn [exited rlReady countSIGINT commandRunning boundL pending ticks
         set_pending set_countSIGINT set_ticks set_endedL].
    rewrite ?Hc.
    do 7 (split; [reflexivity |]). intros job Hj. discriminate.
Qed.

(** One turn of the event loop for the first interrupt: the handler up
    to its [await], and then the ['end'] of the stream it has ended. *)
Lemma SIGINT_step cfg w :
  rlReady w = true -> exited w = None -> countSIGINT w = 0 ->
  let r := step cfg w EvSIGINT in
  exited (fst r) = None /\ rlReady (fst r) = true /\ countSIGINT (fst r) = 1
  /\ (commandRunning w = false -> commandRunning (fst r) = false)
  /\ nth_error (pending (fst r)) (List.length (pending w)) = Some PSigintTrack
  /\ stdinWrites (snd r) = [cancelCommandChar]
  /\ (forall job, currentJob w = Some job ->
        In (EStreamEnd (stdoutStream job)) (snd r)
        /\ (~ In (stdoutStream job) (endedL w) -> In (stdoutStream job) (boundL w) ->
            commandRunning (fst r) = false)).
Proof.
  intros Hrl Hex Hc. unfold step. rewrite Hex. unfold handle.
  cbv beta iota zeta delta [bind get when exec]. rewrite Hrl.
  destruct (on_SIGINT_first w Hc)
    as [w1 [o1 [E1 [H1 [H2 [H3 [H4 [H5 [H6 [H7 H8]]]]]]]]]].
  unfold async. rewrite E1.
  destruct (nextTick_ends w1) as [w2 [o2 [E2 [R F]]]]. rewrite E2.
  cbn [fst snd app].
  destruct R as [K1 [K2 [K3 [K4 [K4' [K5 [[p K6] K7]]]]]]].
  cbn [exited rlReady countSIGINT boundL ticks commandRunning pending set_ticks] in *.
  split; [congruence |]. split; [congruence |]. split; [congruence |].
  split; [intro Hrun; apply K5; congruence |].
  split.
  { rewrite K6, H6, <- app_assoc.
    rewrite nth_error_app2 by lia. rewrite Nat.sub_diag. reflexivity. }
  split.
  { unfold stdinWrites in *. rewrite flat_map_app, H7, K7. reflexivity. }
  intros job Hjob. destruct (H8 job Hjob) as [Hin Hticks]. split.
  - apply in_or_app. left. exact Hin.
  - intros Hopen Hbound. apply F. exists (stdoutStream job).
    split; [apply Hticks; exact Hopen | rewrite H5; exact Hbound].
Qed.



(** The rest of the interrupt handler: it reports the cancellation and
    exits unless a command runs. *)
Lemma SIGINT_resumed cfg w i :
  exited w = None -> nth_error (pending w) i = Some PSigintTrack ->
  step cfg w (EvResolve i AUnit) =
  if commandRunning w
  then (set_pending (remove_nth i (pending w)) w, [ELog "Command cancelled by user"])
  else (set_exited (Some 0) (set_pending (remove_nth i (pending w)) w),
        [ELog "Command cancelled by user"; EExit 0]).
Proof.
  intros Hex Hp. unfold step. rewrite Hex.
  unfold handle, on_resolve. mred. rewrite Hp.
  cbn [resume]. unfold on_SIGINT_resumed. mred.
  destruct (commandRunning w); reflexivity.
Qed.

Lemma nth_error_snoc {A} (l : list A) (x : A) :
  nth_error (l ++ [x]) (List.length l) = Some x.
Proof.
  rewrite nth_error_app2 by lia. rewrite Nat.sub_diag. reflexivity.
Qed.








(** ** The prompt loop *)

Lemma eqb_false_of_neq (s t : string) : s <> t -> String.eqb s t = false.
Proof. intro H. apply String.eqb_neq. exact H. Qed.

(** While a command runs, the line handler drops every line. *)
Lemma line_while_running cfg w line :
  exited w = None -> commandRunning w = true ->
  step cfg w (EvLine line) = (w, []).
Proof.
  intros Hex Hrun. unfold step. rewrite Hex. unfold handle, on_line. mred.
  destruct (rlReady w); mred; [rewrite Hrun |]; reflexivity.
Qed.

(** The line handler on a line that is neither empty nor a command of
    the remote program, without [--log]. *)
Lemma line_not_wp cfg w line :
  rlReady w = true -> exited w = None -> commandRunning w = false ->
  line <> "" -> Str.startsWith line "wp " = false ->
  line <> cancelCommandChar -> log_truthy (opt_log cfg) = false ->
  step cfg w (EvLine line) =
  if Str.startsWith line "exit"
  then (set_exited (Some 0) w, [ERlClose; EExit 0])
  else (w, [invalid_command; ERlPrompt]).
Proof.
  intros Hrl Hex Hrun Hne Hwp Hcc Hlog. unfold step. rewrite Hex.
  unfold handle, on_line. mred. rewrite Hrl. mred. rewrite Hrun.
  rewrite (eqb_false_of_neq _ _ Hne).
  destruct (Str.startsWith line "exit") eqn:Hexit; mred.
  - reflexivity.
  - rewrite Hwp, (eqb_false_of_neq _ _ Hcc), Hlog.
    rewrite orb_true_r. cbn [negb andb]. mred. reflexivity.
Qed.

(** C6, as the code has it. While no command runs and [--log] is not
    set, a non-empty line that does not start with [wp ], is not the
    cancellation byte and does not start with [exit] is answered with
    the validation error and a new prompt, and the world stays as it
    was; a line that starts with [exit] closes the prompt and exits
    with status 0 instead. In both cases the dispatcher is not called. *)
Theorem invalid_line_rejected cfg w line :
  rlReady w = true -> exited w = None -> commandRunning w = false ->
  line <> "" -> Str.startsWith line "wp " = false ->
  line <> cancelCommandChar -> log_truthy (opt_log cfg) = false ->
  (Str.startsWith line "exit" = false ->
     step cfg w (EvLine line) = (w, [invalid_command; ERlPrompt]))
  /\ (Str.startsWith line "exit" = true ->
     step cfg w (EvLine line) = (set_exited (Some 0) w, [ERlClose; EExit 0]))
  /\ dispatchCalls (snd (step cfg w (EvLine line))) = []
  /\ pending (fst (step cfg w (EvLine line))) = pending w.
Proof.
  intros Hrl Hex Hrun Hne Hwp Hcc Hlog.
  rewrite (line_not_wp cfg w line Hrl Hex Hrun Hne Hwp Hcc Hlog).
  destruct (Str.startsWith line "exit"); repeat split; intros; congruence.
Qed.

Lemma invalid_line_rejected_witness :
  step subshell_cfg idle_world (EvLine "ls -la")
  = (idle_world, [invalid_command; ERlPrompt])
  /\ dispatchCalls (snd (step subshell_cfg idle_world (EvLine "ls -la"))) = [].
Proof.
  destruct (invalid_line_rejected subshell_cfg idle_world "ls -la")
    as [H1 [_ [H3 _]]]; try reflexivity; try discriminate.
  split; [apply H1; reflexivity | exact H3].
Defined.

(** C6, as stated, fails on the line [exit]: it is not empty, does not
    start with [wp ], is not the cancellation byte and [--log] is not
    set, yet no validation error is printed and the process exits. *)
Lemma invalid_line_counterexample :
  "exit" <> "" /\ Str.startsWith "exit" "wp " = false
  /\ "exit" <> cancelCommandChar /\ log_truthy (opt_log subshell_cfg) = false
  /\ commandRunning idle_world = false
  /\ ~ In invalid_command (snd (step subshell_cfg idle_world (EvLine "exit")))
  /\ exited (fst (step subshell_cfg idle_world (EvLine "exit"))) = Some 0.
Proof.
  repeat split; try reflexivity; try discriminate.
  vm_compute. intros [H | [H | []]]; discriminate.
Qed.

(** The line handler on the cancellation byte while no command runs. *)
Lemma line_cancel_byte cfg w :
  rlReady w = true -> exited w = None -> commandRunning w = false ->
  step cfg w (EvLine cancelCommandChar) =
  if log_truthy (opt_log cfg)
  then (set_pending
          (pending w ++ [PLaunchLine (log_guid (opt_log cfg)) None (Some "logs")])
          (set_commandAction (Some "logs") w),
        [ERlPause; ETokenGet])
  else (set_pending (pending w ++ [PDispatch cancelCommandChar]) w,
        [ERlPause; EDispatch (appId cfg) (envId cfg) cancelCommandChar]).
Proof.
  intros Hrl Hex Hrun. unfold step. rewrite Hex.
  unfold handle, on_line, line_launch. mred. rewrite Hrl. mred. rewrite Hrun.
  change (String.eqb cancelCommandChar "") with false.
  change (Str.startsWith cancelCommandChar "exit") with false.
  change (String.eqb cancelCommandChar cancelCommandChar) with true.
  change (Str.includes cancelCommandChar "'") with false.
  change (Str.replace cancelCommandChar "wp " "") with cancelCommandChar.
  mred. rewrite andb_false_r. cbn [andb negb].
  destruct (log_truthy (opt_log cfg)); mred; reflexivity.
Qed.

(** C5, as the code has it. The cancellation byte does not start with
    [wp ], yet as a line it passes validation: while no command runs
    it is handed on like a command (to the dispatcher, or to the
    transport with [--log]) and no validation error is printed. While
    a command runs the line handler drops it like every other line. *)
Theorem cancel_byte_line cfg w :
  rlReady w = true -> exited w = None ->
  Str.startsWith cancelCommandChar "wp " = false
  /\ (commandRunning w = false ->
      ~ In invalid_command (snd (step cfg w (EvLine cancelCommandChar)))
      /\ (log_truthy (opt_log cfg) = false ->
          step cfg w (EvLine cancelCommandChar) =
          (set_pending (pending w ++ [PDispatch cancelCommandChar]) w,
           [ERlPause; EDispatch (appId cfg) (envId cfg) cancelCommandChar])))
  /\ (commandRunning w = true ->
      forall line, step cfg w (EvLine line) = (w, [])).
Proof.
  intros Hrl Hex. split; [reflexivity | split].
  - intro Hrun. rewrite (line_cancel_byte cfg w Hrl Hex Hrun).
    destruct (log_truthy (opt_log cfg)); cbn [snd]; split;
      try (intros [H | [H | []]]; discriminate); congruence.
  - intros Hrun line. apply line_while_running; assumption.
Qed.

Lemma cancel_byte_line_witness :
  step subshell_cfg idle_world (EvLine cancelCommandChar) =
    (set_pending (pending idle_world ++ [PDispatch cancelCommandChar]) idle_world,
     [ERlPause; EDispatch 7 11 cancelCommandChar])
  /\ step subshell_cfg running_world (EvLine "wp plugin list") = (running_world, []).
Proof.
  destruct (cancel_byte_line subshell_cfg idle_world) as [_ [H2 _]];
    try reflexivity.
  destruct (cancel_byte_line subshell_cfg running_world) as [_ [_ H3]];
    try reflexivity.
  split.
  - apply H2; reflexivity.
  - apply H3. reflexivity.
Defined.

(** C5, as stated, fails: while a command runs, a line that is the
    cancellation byte forwards nothing; the handler returns at its
    first test, with no effect and no change of the world. *)
Lemma cancel_byte_counterexample :
  commandRunning running_world = true
  /\ step subshell_cfg running_world (EvLine cancelCommandChar)
     = (running_world, []).
Proof. split; reflexivity. Qed.

(** ** Dispatch failures *)

Lemma forEach_emit {A} (f : A -> Effect) (l : list A) (w : World) :
  forEach l (fun a => emit (f a)) w = Cont tt w (map f l).
Proof.
  induction l as [| a l IH]; cbn [forEach map]; [reflexivity |].
  unfold bind, emit in *. cbv beta iota. rewrite IH. reflexivity.
Qed.

(** C7. When the dispatcher call fails, every structured error of the
    failure is printed as a line of its own (any other failure is
    printed whole); then a one-shot invocation closes the prompt and
    exits with status 1, and the subshell prompts again without
    exiting and with nothing else changed. *)
Theorem dispatch_failure cfg w i line :
  exited w = None -> nth_error (pending w) i = Some (PDispatch line) ->
  let w' := set_pending (remove_nth i (pending w)) w in
  (forall messages,
     step cfg w (EvResolve i (ADispatch (DispatchGraphQLErrors messages))) =
     if isSubShell cfg
     then (w', map EErrorLine messages ++ [ERlPrompt])
     else (set_exited (Some 1) w', map EErrorLine messages ++ [ERlClose; EExit 1]))%list
  /\ (forall e,
     step cfg w (EvResolve i (ADispatch (DispatchOtherError e))) =
     if isSubShell cfg
     then (w', [ERollbarError e; ELog e; ERlPrompt])
     else (set_exited (Some 1) w', [ERollbarError e; ELog e; ERlClose; EExit 1])).
Proof.
  intros Hex Hp w'. split.
  - intro messages. erewrite step_resolve; [| exact Hex | exact Hp | reflexivity]. fold w'.
    unfold on_line_dispatched, bind. rewrite forEach_emit.
    destruct (isSubShell cfg); mred; rewrite ?app_nil_r; reflexivity.
  - intro e. erewrite step_resolve; [| exact Hex | exact Hp | reflexivity]. fold w'.
    unfold on_line_dispatched.
    destruct (isSubShell cfg); mred; reflexivity.
Qed.

Lemma dispatch_failure_witness :
  step oneshot_cfg oneshot_dispatching
    (EvResolve 0 (ADispatch (DispatchGraphQLErrors ["Unauthorized"; "Try again"])))
  = (set_exited (Some 1) (set_pending [] oneshot_dispatching),
     [EErrorLine "Unauthorized"; EErrorLine "Try again"; ERlClose; EExit 1])
  /\ step subshell_cfg subshell_dispatching
    (EvResolve 0 (ADispatch (DispatchGraphQLErrors ["Unauthorized"; "Try again"])))
  = (set_pending [] subshell_dispatching,
     [EErrorLine "Unauthorized"; EErrorLine "Try again"; ERlPrompt]).
Proof.
  split.
  - apply (dispatch_failure oneshot_cfg oneshot_dispatching 0
             "wp option get siteurl"); reflexivity.
  - apply (dispatch_failure subshell_cfg subshell_dispatching 0
             "wp option get siteurl"); reflexivity.
Defined.

(** ** The listing of completed commands *)

Lemma find_assigning_id_first target e rest :
  target <> 0 ->
  find_assigning_id target (e :: rest)
  = (Some (set_env_id e target), set_env_id e target :: rest).
Proof.
  intro H. cbn [find_assigning_id].
  destruct (target =? 0) eqn:E; [apply Z.eqb_eq in E; contradiction | reflexivity].
Qed.

(** C10. With [--log] and no id, the commands that are printed are
    those of the first environment of the array the listing query
    returned, whatever the selected environment is, and the [id] of
    that first environment is overwritten with the id of the selected
    environment; the other environments are left as they were. (The
    id of a selected environment is not 0, which JavaScript would take
    as false.) *)
Theorem listing_takes_first_environment cfg e rest :
  opt_log cfg = LogTrue -> envId cfg <> 0 ->
  let r := session cfg [EvResolve 0 (AListing (ListingOk (e :: rest)))] in
  snd r = (EListingQuery (appId cfg)
           :: map printListedCommand (env_commands e) ++ [EExit 0])%list
  /\ listing (fst r) = Some (set_env_id e (envId cfg) :: rest)
  /\ exited (fst r) = Some 0.
Proof.
  intros Hlog Hid.
  assert (Hstart : start cfg = (set_pending [PListing] init, [EListingQuery (appId cfg)])).
  { unfold start, main. rewrite Hlog. reflexivity. }
  unfold session. rewrite Hstart. cbn [run fst snd].
  erewrite step_resolve; [| reflexivity | reflexivity | reflexivity].
  unfold main_listed. rewrite (find_assigning_id_first _ e rest Hid).
  cbn [fst snd]. unfold bind at 1. mred. unfold bind.
  rewrite (forEach_emit printListedCommand). mred.
  rewrite app_nil_r. repeat split.
Qed.

Lemma listing_takes_first_environment_witness :
  let r := session listing_cfg
             [EvResolve 0 (AListing (ListingOk listed_environments))] in
  snd r = [EListingQuery 7; EListCommand "t0" "wp cache flush" "g-dev"; EExit 0]
  /\ listing (fst r)
     = Some [mkEnvironment 11 "develop" [mkCommandNode "t0" "wp cache flush" "g-dev"];
             mkEnvironment 11 "production" [mkCommandNode "t1" "wp core version" "g-prod"]]
  /\ exited (fst r) = Some 0.
Proof.
  apply (listing_takes_first_environment listing_cfg
           (mkEnvironment 10 "develop" [mkCommandNode "t0" "wp cache flush" "g-dev"])
           [mkEnvironment 11 "production" [mkCommandNode "t1" "wp core version" "g-prod"]]).
  - reflexivity.
  - discriminate.
Defined.

(** ** The production confirmation *)

Lemma start_production cfg :
  isSubShell cfg = false -> envName cfg = "production" ->
  opt_yes cfg = false -> log_is_true (opt_log cfg) = false ->
  start cfg =
  (confirming, [ETrackEvent "wpcli_command_execute"; EConfirm ("wp " ++ cmd cfg)]).
Proof.
  intros Hsub Henv Hyes Hlog. unfold start, main, main_execute.
  rewrite Hlog, Hsub, Henv, Hyes. reflexivity.
Qed.

(** While the prompt is open nothing is bound yet: every event but the
    answer passes without a trace. *)
Lemma confirming_inert cfg ev :
  is_confirm_answer ev = false -> step cfg confirming ev = (confirming, []).
Proof.
  destruct ev as [| | | | | | | | | | | | i a]; try reflexivity.
  destruct i as [| i]; [destruct a | destruct i]; try reflexivity.
  discriminate.
Qed.

Lemma confirming_run_inert cfg evs :
  forallb (fun ev => negb (is_confirm_answer ev)) evs = true ->
  run cfg confirming evs = (confirming, []).
Proof.
  induction evs as [| ev evs IH]; cbn [forallb run]; [reflexivity |].
  intro H. apply andb_prop in H. destruct H as [Hev Hevs].
  rewrite confirming_inert by (destruct (is_confirm_answer ev); [discriminate | reflexivity]).
  cbn [fst snd]. rewrite (IH Hevs). reflexivity.
Qed.

Lemma confirming_declined cfg :
  step cfg confirming (EvResolve 0 (AConfirm false)) =
  (set_exited (Some 0) (set_pending [] init),
   [ETrackEvent "wpcli_confirm_cancel"; ELog "Command cancelled"; EExit 0]).
Proof. reflexivity. Qed.

(** C8. A single command against a production environment without
    [--yes]: the callback starts by showing the confirmation prompt, so
    whatever happens later, every call of the dispatcher comes after
    it; and when the user declines, the process exits with status 0
    and the dispatcher is never called, whatever else happens before or
    after the answer. *)
Theorem production_confirmation cfg :
  isSubShell cfg = false -> envName cfg = "production" ->
  opt_yes cfg = false -> log_is_true (opt_log cfg) = false ->
  snd (start cfg)
  = [ETrackEvent "wpcli_command_execute"; EConfirm ("wp " ++ cmd cfg)]
  /\ (forall evs pre a e c post,
        snd (session cfg evs) = (pre ++ EDispatch a e c :: post)%list ->
        In (EConfirm ("wp " ++ cmd cfg)) pre)
  /\ (forall before after,
        forallb (fun ev => negb (is_confirm_answer ev)) before = true ->
        let r := session cfg (before ++ EvResolve 0 (AConfirm false) :: after) in
        exited (fst r) = Some 0 /\ dispatchCalls (snd r) = []).
Proof.
  intros Hsub Henv Hyes Hlog.
  pose proof (start_production cfg Hsub Henv Hyes Hlog) as Hstart.
  split; [rewrite Hstart; reflexivity | split].
  - intros evs pre a e c post H. unfold session in H. rewrite Hstart in H.
    cbn [fst snd app] in H.
    destruct pre as [| x [| y pre]]; cbn [app] in H; try discriminate.
    inversion H; subst. right. left. reflexivity.
  - intros before after Hbefore. unfold session. rewrite Hstart. cbn [fst snd].
    rewrite run_app, (confirming_run_inert cfg before Hbefore).
    cbn [fst snd run app]. rewrite confirming_declined. cbn [fst snd].
    rewrite (run_exited cfg _ after 0) by reflexivity.
    split; reflexivity.
Qed.

Lemma production_confirmation_witness :
  snd (start oneshot_cfg)
  = [ETrackEvent "wpcli_command_execute"; EConfirm "wp option get siteurl"]
  /\ (let r := session oneshot_cfg
                 ([EvLine "wp option get siteurl"; EvSIGINT]
                  ++ EvResolve 0 (AConfirm false)
                  :: [EvLine "wp option get siteurl"]) in
      exited (fst r) = Some 0 /\ dispatchCalls (snd r) = []).
Proof.
  destruct (production_confirmation oneshot_cfg) as [H1 [_ H3]];
    try reflexivity.
  split; [exact H1 |].
  apply (H3 [EvLine "wp option get siteurl"; EvSIGINT]
            [EvLine "wp option get siteurl"]).
  reflexivity.
Defined.

(** ** Attaching to the log of a command *)









(** A command line without a line break reaches the line handler as
    one line. *)
Lemma write_wp_line cfg c w :
  Str.has_line_terminator c = false ->
  subShellRl_write cfg ("wp " ++ c ++ String "010"%char "") w
  = async (on_line cfg ("wp " ++ c)) w.
Proof.
  intro H. unfold subShellRl_write.
  change ("wp " ++ c ++ String "010"%char "")
    with (("wp " ++ c) ++ String "010"%char "").
  rewrite (split_lines_line ("wp " ++ c) H). cbn [removelast forEach].
  unfold bind, ret.
  destruct (async (on_line cfg ("wp " ++ c)) w) as [[] w1 o1 | w1 o1];
    [rewrite app_nil_r |]; reflexivity.
Qed.

(** The command callback of a single command whose line has no line
    break: one line goes to the line handler. *)
Lemma main_prompt_oneshot cfg w :
  isSubShell cfg = false -> Str.has_line_terminator (cmd cfg) = false ->
  main_prompt cfg w =
  (emit EDisableGlobalGraphQLErrorHandling ;;
   modify (set_rlReady true) ;;
   modify (set_muted true) ;;
   async (on_line cfg ("wp " ++ cmd cfg)) ;;
   modify (set_muted false)) w.
Proof.
  intros Hsub Hnl. unfold main_prompt. rewrite Hsub. cbn [negb].
  cbv beta iota delta [bind emit modify].
  rewrite (write_wp_line cfg (cmd cfg) _ Hnl). reflexivity.
Qed.



(** The line handler after [Token.get] has resolved: the transport is
    opened, with offset 0. *)
Lemma line_launched cfg w guid inputToken action :
  final (on_line_launched cfg guid inputToken action w) =
  (let n := nextId w in
   set_reconnL (reconnL w ++ [(n, (guid, inputToken))])
     (set_boundL (boundL w ++ [S n])
        (set_commandRunning true
           (set_stdoutPipes (stdoutPipes w ++ [S n])
              (set_stdinPipes (stdinPipes w ++ [S (S n)])
                 (set_currentJob (Some (mkJob (S (S n)) (S n) n))
                    (set_socketL (socketL w ++ [n])
                       (set_dataL (dataL w ++ [S n])
                          (set_nextId (S (S (S n))) w)))))))),
   [ESocketOpen (nextId w);
    ECmdEmit (nextId w)
      (mkCmdData guid inputToken
         (or_default (tty_columns cfg) NON_TTY_COLUMNS)
         (or_default (tty_rows cfg) NON_TTY_ROWS) 0 action)
      (S (S (nextId w))) (S (nextId w))]).
Proof. reflexivity. Qed.



(** ** The running flag and the pipes *)

Lemma never_on_refl w : never_on w w [].
Proof. unfold never_on. auto. Qed.

Lemma never_on_trans w w1 w2 o1 o2 :
  never_on w w1 o1 -> never_on w1 w2 o2 -> never_on w w2 (o1 ++ o2).
Proof. unfold never_on. auto. Qed.

Ltac never_on_leaf := intros ?; unfold never_on; mred; first [tauto | discriminate].

(** Only the line handler, when the transport has been opened, switches
    the flag on. *)
Lemma resume_never_on cfg p a h :
  (forall guid inputToken action, p <> PLaunchLine guid inputToken action) ->
  resume cfg p a = Some h -> sat never_on h.
Proof.
  intros Hp.
  destruct p, a; cbn [resume]; intro H; inversion H; subst; clear H;
    try (exfalso; eapply Hp; reflexivity);
    sat_walk never_on_refl never_on_trans ltac:(never_on_leaf).
Qed.

Lemma main_never_on cfg : sat never_on (main cfg).
Proof. sat_walk never_on_refl never_on_trans ltac:(never_on_leaf). Qed.

Lemma handle_never_on cfg ev :
  (forall i a, ev <> EvResolve i a) -> sat never_on (handle cfg ev).
Proof.
  intro Hev.
  destruct ev; try (exfalso; eapply Hev; reflexivity);
    sat_walk never_on_refl never_on_trans ltac:(never_on_leaf).
Qed.

Lemma step_resolve_none cfg w i a :
  match nth_error (pending w) i with
  | Some p => resume cfg p a = None
  | None => True
  end ->
  step cfg w (EvResolve i a) = (w, []).
Proof.
  intro H. unfold step. destruct (exited w); [reflexivity |].
  unfold handle, on_resolve. mred.
  destruct (nth_error (pending w) i); [rewrite H |]; reflexivity.
Qed.

Lemma in_snoc {A} (l : list A) (x : A) : In x (l ++ [x]).
Proof. apply in_or_app. right. left. reflexivity. Qed.

(** The step that switches the flag on is the one that binds the pipes. *)
Lemma step_switch_on cfg w ev :
  commandRunning w = false ->
  commandRunning (fst (step cfg w ev)) = true ->
  piped (fst (step cfg w ev)).
Proof.
  intros Hoff Hon.
  destruct (exited w) eqn:Hex.
  { rewrite (step_exited cfg w ev z Hex) in Hon. cbn in Hon. congruence. }
  assert (Hother : sat never_on (handle cfg ev) -> False).
  { intro Hs. pose proof (step_sat cfg never_on never_on_refl) as Hstep.
    unfold step in Hon. rewrite Hex in Hon.
    pose proof (sat_exec never_on (handle cfg ev) w Hs) as H.
    unfold never_on in H. specialize (H Hon). congruence. }
  destruct ev as [| | | | | | | | | | | | i a];
    try (exfalso; apply Hother; apply handle_never_on; intros; discriminate).
  destruct (nth_error (pending w) i) as [p |] eqn:Hp.
  2: { rewrite step_resolve_none in Hon by (rewrite Hp; exact I).
       cbn in Hon. congruence. }
  destruct (resume cfg p a) as [h |] eqn:Hr.
  2: { rewrite step_resolve_none in Hon by (rewrite Hp; exact Hr).
       cbn in Hon. congruence. }
  rewrite (step_resolve cfg w i p a h Hex Hp Hr) in *.
  destruct p as [| | | guid inputToken action | | |].
  4: { destruct a; cbn [resume] in Hr; try discriminate.
       inversion Hr; subst h. rewrite line_launched. unfold piped.
       cbn [fst currentJob set_reconnL set_boundL set_commandRunning
            set_stdoutPipes set_stdinPipes set_currentJob stdinStream
            stdoutStream stdinPipes stdoutPipes set_socketL set_dataL
            set_nextId set_pending nextId].
       split; apply in_snoc. }
  all: exfalso;
    assert (Hs : sat never_on h)
      by (eapply resume_never_on; [| exact Hr]; intros; discriminate);
    specialize (Hs (set_pending (remove_nth i (pending w)) w));
    unfold never_on in Hs; specialize (Hs Hon); cbn in Hs; congruence.
Qed.

(** Without the resolution of a valueless promise the flag stays off. *)
Lemma step_stays_off cfg w ev :
  is_unit_resolve ev = false -> commandRunning w = false ->
  commandRunning (fst (step cfg w ev)) = false.
Proof.
  intros Hev Hoff.
  destruct (commandRunning (fst (step cfg w ev))) eqn:Hon; [| reflexivity].
  exfalso.
  destruct (exited w) eqn:Hex.
  { rewrite (step_exited cfg w ev z Hex) in Hon. cbn in Hon. congruence. }
  destruct ev as [| | | | | | | | | | | | i a].
  13: { destruct (nth_error (pending w) i) as [p |] eqn:Hp.
        2: { rewrite step_resolve_none in Hon by (rewrite Hp; exact I).
             cbn in Hon. congruence. }
        destruct (resume cfg p a) as [h |] eqn:Hr.
        2: { rewrite step_resolve_none in Hon by (rewrite Hp; exact Hr).
             cbn in Hon. congruence. }
        rewrite (step_resolve cfg w i p a h Hex Hp Hr) in *.
        assert (Hs : sat never_on h).
        { eapply resume_never_on; [| exact Hr]. intros g t act Heq. subst p.
          destruct a; cbn in Hev, Hr; discriminate. }
        specialize (Hs (set_pending (remove_nth i (pending w)) w)).
        unfold never_on in Hs. specialize (Hs Hon). cbn in Hs. congruence. }
  all: unfold step in Hon; rewrite Hex in Hon;
    match type of Hon with context [handle ?c ?e] =>
      assert (Hs : sat never_on (handle c e))
        by (apply handle_never_on; intros; discriminate);
      pose proof (sat_exec never_on _ w Hs) as H
    end;
    unfold never_on in H; specialize (H Hon); congruence.
Qed.

Lemma run_stays_off cfg w evs :
  forallb (fun ev => negb (is_unit_resolve ev)) evs = true ->
  commandRunning w = false ->
  commandRunning (fst (run cfg w evs)) = false.
Proof.
  revert w. induction evs as [| ev evs IH]; intros w Hevs Hoff;
    cbn [run fst forallb] in *; [assumption |].
  apply andb_prop in Hevs. destruct Hevs as [Hev Hevs].
  apply IH; [assumption |].
  apply step_stays_off; [| assumption].
  destruct (is_unit_resolve ev); [discriminate | reflexivity].
Qed.

Lemma listeners_pos s l : In s l -> exists n, listeners s l = S n.
Proof.
  intro H. apply (count_occ_In Nat.eq_dec) in H. unfold listeners.
  destruct (count_occ Nat.eq_dec l s) as [| n]; [lia | eauto].
Qed.

(** A listener that switches the flag off and never on, run at least
    once, leaves the flag off. *)
Lemma each_switches_off n h w :
  sat never_on h ->
  (forall v, commandRunning (fst (final (h v))) = false) ->
  commandRunning (fst (final (each (S n) h w))) = false.
Proof.
  intros Hs Hoff. cbn [each]. unfold bind.
  pose proof (Hoff w) as H1.
  destruct (h w) as [u w1 o1 | w1 o1]; cbn [final fst] in *; [| assumption].
  pose proof (sat_each never_on never_on_refl never_on_trans n h Hs w1) as H2.
  unfold never_on in H2.
  destruct (each n h w1) as [u2 w2 o2 | w2 o2]; cbn [final fst] in *;
    (destruct (commandRunning w2); [specialize (H2 eq_refl); congruence | reflexivity]).
Qed.

(** A step is the run of the handlers of its event. *)
Lemma step_alive cfg w ev :
  exited w = None -> step cfg w ev = final (handle cfg ev w).
Proof. intro Hex. unfold step. rewrite Hex. reflexivity. Qed.

Lemma final_get_then {A} (k : World -> M A) (w : World) :
  final (bind get k w) = final (k w w).
Proof. unfold bind, get. destruct (k w w); reflexivity. Qed.

Lemma final_modify_then {A} (f : World -> World) (k : M A) (w : World) :
  final (bind (modify f) (fun _ => k) w) = final (k (f w)).
Proof. unfold bind, modify. destruct (k (f w)); reflexivity. Qed.

Lemma stream_end_switches_off cfg w s :
  exited w = None -> In s (boundL w) ->
  commandRunning (fst (step cfg w (EvStreamEnd s))) = false.
Proof.
  intros Hex Hin. rewrite (step_alive cfg w _ Hex).
  unfold handle. rewrite final_get_then.
  unfold close_stream. rewrite final_modify_then.
  destruct (listeners_pos s _ Hin) as [n Hn]. rewrite Hn.
  match goal with |- context [each (S n) ?h ?v] =>
    pose proof (each_switches_off n h v) as H end.
  destruct (each (S n) _ _) as [u w1 o1 | w1 o1]; cbn [final fst] in *;
    apply H; try (intro v; rewrite final_async; reflexivity);
    apply sat_async; unfold on_stream_end;
    sat_walk never_on_refl never_on_trans ltac:(never_on_leaf).
Qed.

Lemma keeps_pipes_refl w : keeps_pipes w w [].
Proof. unfold keeps_pipes. auto. Qed.

Lemma keeps_pipes_trans w w1 w2 o1 o2 :
  keeps_pipes w w1 o1 -> keeps_pipes w1 w2 o2 -> keeps_pipes w w2 (o1 ++ o2).
Proof.
  unfold keeps_pipes. intros [? [? ?]] [? [? ?]]. repeat split; congruence.
Qed.

Lemma stream_error_switches_off cfg w s message :
  exited w = None -> In s (boundL w) ->
  commandRunning (fst (step cfg w (EvStreamError s message))) = false
  /\ keeps_pipes w (fst (step cfg w (EvStreamError s message))) [].
Proof.
  intros Hex Hin. rewrite (step_alive cfg w _ Hex).
  unfold handle. rewrite final_get_then.
  unfold close_stream. rewrite final_modify_then.
  destruct (listeners_pos s _ Hin) as [n Hn]. rewrite Hn.
  match goal with |- context [each (S n) ?h ?v] =>
    pose proof (each_switches_off n h v) as H;
    pose proof (sat_each keeps_pipes keeps_pipes_refl keeps_pipes_trans (S n) h
                  ltac:(intro v'; unfold keeps_pipes; cbn; auto) v) as K
  end.
  unfold keeps_pipes in *.
  cbn [stdinPipes stdoutPipes currentJob set_endedL] in K.
  destruct (each (S n) _ _) as [u w1 o1 | w1 o1]; cbn [final fst snd] in *;
    (split; [apply H; [unfold on_stream_error;
                       sat_walk never_on_refl never_on_trans ltac:(never_on_leaf)
                      | intro v; reflexivity]
            | exact K]).
Qed.

Lemma cancel_exits cfg w sock message :
  exited w = None -> In sock (socketL w) ->
  exited (fst (step cfg w (EvCancel sock message))) = Some 1
  /\ commandRunning (fst (step cfg w (EvCancel sock message))) = commandRunning w.
Proof.
  intros Hex Hin. unfold step. rewrite Hex. unfold handle. mred.
  destruct (listeners_pos sock _ Hin) as [n Hn]. rewrite Hn.
  cbn [each]. unfold on_cancel. mred. split; reflexivity.
Qed.

(** C4, as the code has it. The flag [commandRunning] is off from the
    start until a transport has been opened; the step that switches it
    on is the one that pipes stdin and stdout to the stream pair of the
    new job; it is off right after an ['end'] and after an ['error'] of
    a bound output stream, and the ['error'] listener leaves the pipes
    and the job as they are; a ['cancel'] from the server exits with
    status 1 and does not touch the flag. *)
Theorem commandRunning_and_pipes cfg :
  (forall evs,
     forallb (fun ev => negb (is_unit_resolve ev)) evs = true ->
     commandRunning (fst (session cfg evs)) = false)
  /\ (forall w ev,
        commandRunning w = false ->
        commandRunning (fst (step cfg w ev)) = true ->
        piped (fst (step cfg w ev)))
  /\ (forall w s,
        exited w = None -> In s (boundL w) ->
        commandRunning (fst (step cfg w (EvStreamEnd s))) = false)
  /\ (forall w s message,
        exited w = None -> In s (boundL w) ->
        commandRunning (fst (step cfg w (EvStreamError s message))) = false
        /\ keeps_pipes w (fst (step cfg w (EvStreamError s message))) [])
  /\ (forall w sock message,
        exited w = None -> In sock (socketL w) ->
        exited (fst (step cfg w (EvCancel sock message))) = Some 1
        /\ commandRunning (fst (step cfg w (EvCancel sock message)))
           = commandRunning w).
Proof.
  split; [| split; [| split; [| split]]].
  - intros evs Hevs. unfold session. cbn [fst]. apply run_stays_off; [assumption |].
    pose proof (sat_exec never_on (main cfg) init (main_never_on cfg)) as H.
    unfold never_on in H. unfold start.
    destruct (commandRunning (fst (exec (main cfg) init))); [| reflexivity].
    specialize (H eq_refl). discriminate.
  - apply step_switch_on.
  - apply stream_end_switches_off.
  - apply stream_error_switches_off.
  - apply cancel_exits.
Qed.

Lemma commandRunning_and_pipes_witness :
  commandRunning (fst (session subshell_cfg [EvLine "ls"; EvSIGINT])) = false
  /\ piped (fst (step subshell_cfg launching_world (EvResolve 0 AUnit)))
  /\ commandRunning (fst (step subshell_cfg running_world (EvStreamEnd 1))) = false
  /\ commandRunning
       (fst (step subshell_cfg running_world (EvStreamError 1 "socket hang up")))
     = false
  /\ exited (fst (step subshell_cfg running_world (EvCancel 0 "stop"))) = Some 1.
Proof.
  destruct (commandRunning_and_pipes subshell_cfg) as [H1 [H2 [H3 [H4 H5]]]].
  split; [| split; [| split; [| split]]].
  - apply (H1 [EvLine "ls"; EvSIGINT]). vm_compute. reflexivity.
  - apply (H2 launching_world (EvResolve 0 AUnit)); vm_compute; reflexivity.
  - apply (H3 running_world 1%nat); vm_compute; [reflexivity | left; reflexivity].
  - apply (H4 running_world 1%nat "socket hang up"); vm_compute;
      [reflexivity | left; reflexivity].
  - apply (H5 running_world 0%nat "stop"); vm_compute;
      [reflexivity | left; reflexivity].
Defined.

(** C4, as stated, fails: after an error on the output stream of a
    running command the flag is off while stdin and stdout are still
    piped to the stream pair of the job. *)
Lemma commandRunning_iff_piped_counterexample :
  exited errored_world = None
  /\ commandRunning errored_world = false
  /\ piped errored_world
  /\ ~ (commandRunning errored_world = true <-> piped errored_world).
Proof.
  assert (Hp : piped errored_world) by (vm_compute; split; left; reflexivity).
  assert (Hoff : commandRunning errored_world = false) by (vm_compute; reflexivity).
  split; [vm_compute; reflexivity | split; [exact Hoff | split; [exact Hp |]]].
  intros [_ H]. specialize (H Hp). rewrite Hoff in H. discriminate.
Qed.

(** ** The output offset *)

Lemma reconnect_resumed cfg w guid inputToken offset :
  final (on_reconnect_resumed cfg guid inputToken offset w) =
  (let n := nextId w in
   set_boundL (boundL w ++ [S n])
     (set_stdoutPipes (stdoutPipes w ++ [S n])
        (set_stdinPipes (stdinPipes w ++ [S (S n)])
           (set_currentJob (Some (mkJob (S (S n)) (S n) n))
              (set_socketL (socketL w ++ [n])
                 (set_dataL (dataL w ++ [S n])
                    (set_nextId (S (S (S n))) w)))))),
   [ESocketOpen (nextId w);
    ECmdEmit (nextId w)
      (mkCmdData guid inputToken
         (or_default (tty_columns cfg) NON_TTY_COLUMNS)
         (or_default (tty_rows cfg) NON_TTY_ROWS) offset None)
      (S (S (nextId w))) (S (nextId w));
    ERlResume]).
Proof. reflexivity. Qed.

Lemma NoDup_snoc {A} (l : list A) (x : A) :
  NoDup l -> ~ In x l -> NoDup (l ++ [x]).
Proof.
  intros Hnd Hx. induction Hnd as [| y l Hy Hnd IH]; cbn [app].
  - constructor; [intros [] | constructor].
  - constructor.
    + intro H. apply in_app_or in H. destruct H as [H | [H | []]].
      * contradiction.
      * subst. apply Hx. left. reflexivity.
    + apply IH. intro H. apply Hx. right. exact H.
Qed.

Lemma keeps_wf_refl w : keeps_wf w w [].
Proof. unfold keeps_wf. auto. Qed.

Lemma keeps_wf_trans w w1 w2 o1 o2 :
  keeps_wf w w1 o1 -> keeps_wf w1 w2 o2 -> keeps_wf w w2 (o1 ++ o2).
Proof. unfold keeps_wf. auto. Qed.

(** A new output stream with its offset listener. *)
Lemma wf_new_stream w :
  wf w ->
  NoDup (dataL w ++ [S (nextId w)])
  /\ Forall (fun s => (s < S (S (S (nextId w))))%nat) (dataL w ++ [S (nextId w)]).
Proof.
  intros [Hnd [Hlt _]]. split.
  - apply NoDup_snoc; [assumption |]. intro Hin.
    rewrite Forall_forall in Hlt. specialize (Hlt _ Hin). lia.
  - apply Forall_app. split.
    + eapply Forall_impl; [| exact Hlt]. cbn. intros. lia.
    + constructor; [lia | constructor].
Qed.

Lemma on_line_launched_wf cfg guid inputToken action :
  sat keeps_wf (on_line_launched cfg guid inputToken action).
Proof.
  intros w Hwf. rewrite line_launched. cbn [fst].
  destruct (wf_new_stream w Hwf) as [Hnd Hlt].
  unfold wf. cbn. repeat split; try assumption. right. discriminate.
Qed.

Lemma on_reconnect_resumed_wf cfg guid inputToken offset :
  sat keeps_wf (on_reconnect_resumed cfg guid inputToken offset).
Proof.
  intros w Hwf. rewrite reconnect_resumed. cbn [fst].
  destruct (wf_new_stream w Hwf) as [Hnd Hlt].
  unfold wf. cbn. repeat split; try assumption. right. discriminate.
Qed.

Ltac wf_leaf :=
  let H := fresh in
  intros ? H; destruct H as [? [? ?]]; unfold wf; mred;
  repeat split;
  first [ assumption
        | right; discriminate
        | eapply Forall_impl; [| eassumption]; cbn; intros; lia ].

Lemma resume_wf cfg p a h : resume cfg p a = Some h -> sat keeps_wf h.
Proof.
  destruct p, a; cbn [resume]; intro H; inversion H; subst; clear H;
    first [ apply on_line_launched_wf
          | apply on_reconnect_resumed_wf
          | sat_walk keeps_wf_refl keeps_wf_trans ltac:(wf_leaf) ].
Qed.

Lemma handle_wf cfg ev : sat keeps_wf (handle cfg ev).
Proof.
  destruct ev;
    sat_walk keeps_wf_refl keeps_wf_trans
      ltac:(first [ eapply resume_wf; eassumption | wf_leaf ]).
Qed.

Lemma main_wf cfg : sat keeps_wf (main cfg).
Proof. sat_walk keeps_wf_refl keeps_wf_trans ltac:(wf_leaf). Qed.

Lemma wf_init : wf init.
Proof. repeat split; [constructor | constructor | left; reflexivity]. Qed.

Lemma step_wf cfg w ev : wf w -> wf (fst (step cfg w ev)).
Proof. apply (step_sat cfg keeps_wf keeps_wf_refl (handle_wf cfg)). Qed.

Lemma run_wf cfg w evs : wf w -> wf (fst (run cfg w evs)).
Proof.
  apply (run_sat cfg keeps_wf keeps_wf_refl keeps_wf_trans (handle_wf cfg)).
Qed.

(** Every world of a session is well formed. *)
Lemma session_wf cfg evs : wf (fst (session cfg evs)).
Proof.
  unfold session. cbn [fst]. apply run_wf.
  apply (sat_exec keeps_wf (main cfg) init (main_wf cfg)). apply wf_init.
Qed.

Lemma keeps_offset_refl w : keeps_offset w w [].
Proof. reflexivity. Qed.

Lemma keeps_offset_trans w w1 w2 o1 o2 :
  keeps_offset w w1 o1 -> keeps_offset w1 w2 o2 -> keeps_offset w w2 (o1 ++ o2).
Proof. unfold keeps_offset. congruence. Qed.

Ltac offset_leaf := intros ?; unfold keeps_offset; mred; reflexivity.

(** Every continuation but the rest of the ['end'] listener leaves the
    offset alone. *)
Lemma resume_keeps_offset cfg p a h :
  p <> PEndTrack -> resume cfg p a = Some h -> sat keeps_offset h.
Proof.
  intro Hp.
  destruct p, a; cbn [resume]; intro H; inversion H; subst; clear H;
    try congruence;
    sat_walk keeps_offset_refl keeps_offset_trans ltac:(offset_leaf).
Qed.

(** Every event but a chunk and the resolution of a promise leaves the
    offset alone: lines, interrupts, ['end'], ['error'], ['reconnect'],
    ['reconnect_attempt'] and the events of the socket. *)
Lemma handle_keeps_offset cfg ev :
  (forall s data, ev <> EvStreamData s data) ->
  (forall i a, ev <> EvResolve i a) ->
  sat keeps_offset (handle cfg ev).
Proof.
  intros Hdata Hres.
  destruct ev;
    try (exfalso; eapply Hdata; reflexivity);
    try (exfalso; eapply Hres; reflexivity);
    sat_walk keeps_offset_refl keeps_offset_trans ltac:(offset_leaf).
Qed.

Lemma step_keeps_offset cfg w ev :
  (forall s data, ev <> EvStreamData s data) -> allowed w ev ->
  currentOffset (fst (step cfg w ev)) = currentOffset w.
Proof.
  intros Hdata Hal.
  destruct (exited w) eqn:Hex.
  { rewrite (step_exited cfg w ev z Hex). reflexivity. }
  destruct ev as [| | | | | | | | | | | | i a].
  13: { destruct (nth_error (pending w) i) as [p |] eqn:Hp.
        2: { rewrite step_resolve_none by (rewrite Hp; exact I). reflexivity. }
        destruct (resume cfg p a) as [h |] eqn:Hr.
        2: { rewrite step_resolve_none by (rewrite Hp; exact Hr). reflexivity. }
        rewrite (step_resolve cfg w i p a h Hex Hp Hr).
        assert (Hs : sat keeps_offset h).
        { eapply resume_keeps_offset; [| exact Hr]. intro Heq. subst p.
          destruct a; cbn in Hr, Hal; try discriminate. congruence. }
        apply (Hs (set_pending (remove_nth i (pending w)) w)). }
  all: rewrite (step_alive cfg w _ Hex);
    match goal with |- context [handle ?c ?e] =>
      apply (handle_keeps_offset c e); intros; first [discriminate | eapply Hdata; eassumption]
    end.
Qed.

Lemma final_bind_cont {A B} (m : M A) (k : A -> M B) w a w1 o1 :
  m w = Cont a w1 o1 -> fst (final (bind m k w)) = fst (final (k a w1)).
Proof. intro H. unfold bind. rewrite H. destruct (k a w1); reflexivity. Qed.

(** A chunk on an output stream of a session adds its length. *)
Lemma step_chunk cfg w s data :
  wf w -> exited w = None -> In s (dataL w) ->
  currentOffset (fst (step cfg w (EvStreamData s data)))
  = currentOffset w + Z.of_nat (String.length data).
Proof.
  intros [Hnd _] Hex Hin. rewrite (step_alive cfg w _ Hex).
  unfold handle. rewrite final_get_then.
  assert (H1 : listeners s (dataL w) = 1%nat).
  { unfold listeners. apply NoDup_count_occ'; assumption. }
  rewrite H1.
  erewrite final_bind_cont by reflexivity.
  match goal with |- context [each ?n ?h ?v] =>
    pose proof (sat_each keeps_offset keeps_offset_refl keeps_offset_trans n h) as K;
    specialize (K ltac:(offset_leaf) v)
  end.
  unfold keeps_offset in K. rewrite K. cbn [currentOffset set_currentOffset]. lia.
Qed.

(** The offset is what it was plus the chunks, as long as the command
    is in progress. *)
Lemma run_offset cfg w evs :
  wf w -> in_progress cfg w evs ->
  currentOffset (fst (run cfg w evs)) = currentOffset w + chunk_total evs.
Proof.
  revert w. induction evs as [| ev evs IH]; intros w Hwf Hprog;
    cbn [run fst chunk_total].
  - lia.
  - destruct Hprog as [Hal Hprog].
    rewrite (IH _ (step_wf cfg w ev Hwf) Hprog).
    destruct ev;
      try (rewrite step_keeps_offset by (assumption || (intros; discriminate)); reflexivity).
    destruct Hal as [Hex Hin]. rewrite (step_chunk cfg w _ _ Hwf Hex Hin). lia.
Qed.

(** The ['reconnect'] listener up to its [await], when there is a job. *)
Lemma on_reconnect_parks guid inputToken w job :
  currentJob w = Some job ->
  on_reconnect guid inputToken w =
  Cont tt
    (set_pending (pending w ++ [PLaunchReconnect guid inputToken (currentOffset w)])
       (set_stdoutPipes (remove_first (stdoutStream job) (stdoutPipes w))
          (set_stdinPipes (remove_first (stdinStream job) (stdinPipes w)) w)))
    [ETrackEvent "wpcli_command_reconnect"; ETokenGet].
Proof. intro H. unfold on_reconnect. mred. rewrite H. reflexivity. Qed.

Lemma forEach_on_reconnect (l : list (Guid * option string)) w :
  currentJob w <> None ->
  pending (fst (final (forEach l (fun c => async (on_reconnect (fst c) (snd c))) w)))
  = (pending w ++ map (fun c => PLaunchReconnect (fst c) (snd c) (currentOffset w)) l)%list.
Proof.
  revert w. induction l as [| c l IH]; intros w Hjob; cbn [forEach map].
  - cbn. rewrite app_nil_r. reflexivity.
  - destruct (currentJob w) as [job |] eqn:Hj; [| congruence].
    erewrite final_bind_cont
      by (unfold async; rewrite (on_reconnect_parks _ _ w job Hj); reflexivity).
    rewrite IH by (cbn; congruence).
    cbn [pending currentOffset set_pending set_stdoutPipes set_stdinPipes].
    rewrite <- app_assoc. reflexivity.
Qed.

(** A ['reconnect'] parks one re-opening per listener, each with the
    offset of that moment. *)
Lemma reconnect_parks cfg w sock :
  wf w -> exited w = None ->
  pending (fst (step cfg w (EvReconnect sock)))
  = (pending w ++ reopenings sock (currentOffset w) w)%list.
Proof.
  intros [_ [_ Hjob]] Hex. rewrite (step_alive cfg w _ Hex).
  unfold handle. rewrite final_get_then. unfold reopenings.
  destruct (reconnect_listeners sock (reconnL w)) as [| c l] eqn:Hl.
  - cbn. rewrite app_nil_r. reflexivity.
  - apply forEach_on_reconnect.
    destruct Hjob as [Hnil | Hjob]; [| assumption].
    unfold reconnect_listeners in Hl. rewrite Hnil in Hl. discriminate.
Qed.

(** The re-opening, once [Token.get] has resolved: the new transport is
    opened with the offset the continuation was parked with. *)
Lemma reopening_resumed cfg w i guid inputToken offset :
  exited w = None ->
  nth_error (pending w) i = Some (PLaunchReconnect guid inputToken offset) ->
  snd (step cfg w (EvResolve i AUnit)) =
  [ESocketOpen (nextId w);
   ECmdEmit (nextId w)
     (mkCmdData guid inputToken
        (or_default (tty_columns cfg) NON_TTY_COLUMNS)
        (or_default (tty_rows cfg) NON_TTY_ROWS) offset None)
     (S (S (nextId w))) (S (nextId w));
   ERlResume].
Proof.
  intros Hex Hp.
  erewrite step_resolve; [| exact Hex | exact Hp | reflexivity].
  rewrite reconnect_resumed. reflexivity.
Qed.

(** The rest of the ['end'] listener resets the offset. *)
Lemma end_resets_offset cfg w i :
  exited w = None -> nth_error (pending w) i = Some PEndTrack ->
  currentJob w <> None ->
  currentOffset (fst (step cfg w (EvResolve i AUnit))) = 0.
Proof.
  intros Hex Hp Hjob.
  erewrite step_resolve; [| exact Hex | exact Hp | reflexivity].
  unfold on_stream_end_resumed. mred.
  destruct (currentJob w); [| congruence].
  destruct (isSubShell cfg); reflexivity.
Qed.

(** C1, as the code has it. For a logical command that starts with the
    offset at 0 and for every sequence of events in which chunks arrive
    on output streams of its sessions and no ['end'] listener runs to
    its end: the offset after the sequence is the sum of the lengths of
    the chunks; a ['reconnect'] then parks, for each of its listeners,
    a re-opening of the transport with exactly that sum as offset, and
    the re-opening sends it in its [cmd] event; no event but a chunk
    and the rest of an ['end'] listener changes the offset, a
    ['reconnect'] in particular does not; and the rest of an ['end']
    listener sets it to 0. *)
Theorem offset_is_sum_of_chunks cfg w evs :
  wf w -> currentOffset w = 0 -> in_progress cfg w evs ->
  let w' := fst (run cfg w evs) in
  currentOffset w' = chunk_total evs
  /\ (forall sock,
        exited w' = None ->
        pending (fst (step cfg w' (EvReconnect sock)))
        = (pending w' ++ reopenings sock (chunk_total evs) w')%list
        /\ currentOffset (fst (step cfg w' (EvReconnect sock))) = chunk_total evs)
  /\ (forall v i guid inputToken offset,
        exited v = None ->
        nth_error (pending v) i = Some (PLaunchReconnect guid inputToken offset) ->
        snd (step cfg v (EvResolve i AUnit)) =
        [ESocketOpen (nextId v);
         ECmdEmit (nextId v)
           (mkCmdData guid inputToken
              (or_default (tty_columns cfg) NON_TTY_COLUMNS)
              (or_default (tty_rows cfg) NON_TTY_ROWS) offset None)
           (S (S (nextId v))) (S (nextId v));
         ERlResume])
  /\ (forall v ev,
        (forall s data, ev <> EvStreamData s data) -> allowed v ev ->
        currentOffset (fst (step cfg v ev)) = currentOffset v)
  /\ (forall v i,
        exited v = None -> nth_error (pending v) i = Some PEndTrack ->
        currentJob v <> None ->
        currentOffset (fst (step cfg v (EvResolve i AUnit))) = 0).
Proof.
  intros Hwf H0 Hprog w'.
  assert (Hoff : currentOffset w' = chunk_total evs).
  { unfold w'. rewrite (run_offset cfg w evs Hwf Hprog). lia. }
  split; [exact Hoff | split; [| split; [| split]]].
  - intros sock Hex. split.
    + rewrite <- Hoff. apply reconnect_parks; [| exact Hex].
      apply run_wf. exact Hwf.
    + rewrite <- Hoff. apply step_keeps_offset; [intros; discriminate | exact I].
  - intros v i guid inputToken offset. apply reopening_resumed.
  - intros v ev. apply step_keeps_offset.
  - intros v i. apply end_resets_offset.
Qed.

Ltac in_progress_by_computation :=
  vm_compute; repeat split;
  first [ tauto | intro; discriminate | reflexivity ].

Lemma offset_is_sum_of_chunks_witness :
  let w' := fst (run subshell_cfg running_world chunks_and_reconnect) in
  currentOffset w' = 12
  /\ pending (fst (step subshell_cfg w' (EvReconnect 0)))
     = [PLaunchReconnect (GuidStr "g1") (Some "tok") 12].
Proof.
  destruct (offset_is_sum_of_chunks subshell_cfg running_world chunks_and_reconnect)
    as [H1 [H2 _]].
  - exact (session_wf subshell_cfg launch_events).
  - reflexivity.
  - in_progress_by_computation.
  - split; [exact H1 |].
    destruct (H2 0%nat eq_refl) as [H _]. exact H.
Defined.

(** C1, as stated, fails for a command that follows one whose output
    stream failed: the ['error'] listener switches [commandRunning] off
    and leaves the offset, so the next command is accepted and starts
    with the 5 bytes of the first one; after its first chunk of 3 bytes
    the offset is 8, and a reconnect would ask for offset 8. *)
Lemma offset_after_failed_command_counterexample :
  exited after_failed_command = None
  /\ commandRunning after_failed_command = false
  /\ in_progress subshell_cfg after_failed_command second_command
  /\ chunk_total second_command = 3
  /\ (let w' := fst (run subshell_cfg after_failed_command second_command) in
      currentOffset w' = 8
      /\ currentOffset w' <> chunk_total second_command
      /\ pending (fst (step subshell_cfg w' (EvReconnect 3)))
         = [PLaunchReconnect (GuidStr "g2") (Some "tok2") 8]).
Proof.
  split; [reflexivity | split; [reflexivity | split; [| split; [reflexivity |]]]].
  - in_progress_by_computation.
  - split; [reflexivity | split; [| reflexivity]].
    vm_compute. discriminate.
Qed.

(** * Scenarios *)

Example replace_strips_the_prefix :
  Str.replace "wp option get siteurl" "wp " "" = "option get siteurl"
  /\ Str.replace "echo wp wp x" "wp " "" = "echo wp x".
Proof. split; reflexivity. Qed.

Example requoteArgs_quotes_spaces :
  requoteArgs ["post"; "list"; "--title=Hello world"; "two words"]
  = ["post"; "list"; "--title=" ++ dquote ++ "Hello world" ++ dquote;
     dquote ++ "two words" ++ dquote].
Proof. reflexivity. Qed.

(** The line [wp option get siteurl] in the subshell: the dispatcher is
    called with [option get siteurl], a new stream pair is bound and
    the command runs. *)
Example subshell_command_starts :
  snd (session subshell_cfg launch_events)
  = [ETrackEvent "wpcli_command_execute";
     EStdoutWrite (String "027"%char "[?25h");
     EWelcome; EDisableGlobalGraphQLErrorHandling; ERlPrompt;
     ERlPause; EDispatch 7 11 "option get siteurl"; ETokenGet;
     ESocketOpen 0;
     ECmdEmit 0 (mkCmdData (GuidStr "g1") (Some "tok") 100 15 0 None) 2 1]
  /\ commandRunning running_world = true
  /\ stdinPipes running_world = [2%nat]
  /\ stdoutPipes running_world = [1%nat].
Proof. repeat split. Qed.

(** The output stream ends: the line is cleared, the offset is back at
    0 and the prompt is shown again. *)
Example subshell_command_ends :
  let r := run subshell_cfg running_world
             [EvStreamData 1 "https://example.com"; EvStreamEnd 1; EvResolve 0 AUnit] in
  snd r = [EStdoutWrite "https://example.com"; ERlClearLine;
           ETrackEvent "wpcli_command_end"; ESocketClose 0; ERlResume; ERlPrompt]
  /\ currentOffset (fst r) = 0
  /\ commandRunning (fst r) = false
  /\ exited (fst r) = None.
Proof. repeat split. Qed.

(** The transport reconnects after 7 bytes: the new [cmd] event carries
    offset 7. *)
Example reconnect_carries_the_offset :
  In (ECmdEmit 5 (mkCmdData (GuidStr "g1") (Some "tok") 100 15 7 None) 7 6)
     (snd (run subshell_cfg running_world chunks_and_reconnect)).
Proof. vm_compute. tauto. Qed.

(** * More of the prompt loop and the transport *)


(** * More of the prompt loop *)

(** X1. While no command runs and [--log] is not set, a line that
    starts with [wp ] is handed to the dispatcher with that prefix
    taken off, whatever follows it; the prompt is paused and the line
    handler waits for the dispatcher. *)
Theorem wp_line_dispatched cfg w rest :
  rlReady w = true -> exited w = None -> commandRunning w = false ->
  log_truthy (opt_log cfg) = false ->
  step cfg w (EvLine ("wp " ++ rest)) =
  (set_pending (pending w ++ [PDispatch ("wp " ++ rest)]) w,
   [ERlPause; EDispatch (appId cfg) (envId cfg) rest]).
Proof.
  intros Hrl Hex Hrun Hlog. rewrite (step_alive cfg w _ Hex).
  unfold handle, on_line. mred. rewrite Hrl. mred. rewrite Hrun.
  change (String.eqb ("wp " ++ rest) "") with false.
  change (Str.startsWith ("wp " ++ rest) "exit") with false.
  replace (Str.startsWith ("wp " ++ rest) "wp ") with true
    by (symmetry; apply (prefix_append "wp " rest)).
  change (Nat.eqb (String.length ("wp " ++ rest)) 0) with false.
  rewrite Hlog, (replace_prefix "wp " rest). mred. reflexivity.
Qed.

Lemma wp_line_dispatched_witness :
  step subshell_cfg idle_world (EvLine "wp plugin list --format=json") =
  (set_pending [PDispatch "wp plugin list --format=json"] idle_world,
   [ERlPause; EDispatch 7 11 "plugin list --format=json"]).
Proof.
  apply (wp_line_dispatched subshell_cfg idle_world "plugin list --format=json");
    reflexivity.
Defined.

(** X2. The flag [commandRunning] does not guard the wait for the
    dispatcher: a second command typed before the dispatcher has
    answered the first is dispatched as well, and both wait. *)
Theorem two_lines_two_dispatches cfg w a b :
  rlReady w = true -> exited w = None -> commandRunning w = false ->
  log_truthy (opt_log cfg) = false ->
  run cfg w [EvLine ("wp " ++ a); EvLine ("wp " ++ b)] =
  (set_pending (pending w ++ [PDispatch ("wp " ++ a); PDispatch ("wp " ++ b)]) w,
   [ERlPause; EDispatch (appId cfg) (envId cfg) a;
    ERlPause; EDispatch (appId cfg) (envId cfg) b]).
Proof.
  intros Hrl Hex Hrun Hlog. cbn [run].
  rewrite (wp_line_dispatched cfg w a Hrl Hex Hrun Hlog). cbn [fst snd].
  rewrite wp_line_dispatched by assumption.
  cbn [fst snd pending set_pending app]. rewrite <- app_assoc. reflexivity.
Qed.

Lemma two_lines_two_dispatches_witness :
  dispatchCalls
    (snd (run subshell_cfg idle_world
            [EvLine "wp cache flush"; EvLine "wp core version"]))
  = ["cache flush"; "core version"].
Proof.
  exact (f_equal (fun r => dispatchCalls (snd r))
           (two_lines_two_dispatches subshell_cfg idle_world
              "cache flush" "core version" eq_refl eq_refl eq_refl eq_refl)).
Defined.

(** X3. At the idle prompt one interrupt is enough: its handler writes
    the cancellation byte, and when its tracking call has returned it
    reports the cancellation and, as no command runs, exits with
    status 0. *)
Theorem interrupt_at_idle_prompt_exits cfg w :
  rlReady w = true -> exited w = None ->
  commandRunning w = false -> countSIGINT w = 0 ->
  let r := run cfg w [EvSIGINT; EvResolve (List.length (pending w)) AUnit] in
  exited (fst r) = Some 0
  /\ stdinWrites (snd r) = [cancelCommandChar]
  /\ In (ELog "Command cancelled by user") (snd r).
Proof.
  intros Hrl Hex Hrun Hc. cbn [run].
  destruct (SIGINT_step cfg w Hrl Hex Hc) as [S1 [_ [_ [S4 [S5 [S6 _]]]]]].
  destruct (step cfg w EvSIGINT) as [w1 o1]. cbn [fst snd] in *.
  rewrite (SIGINT_resumed cfg w1 _ S1 S5), (S4 Hrun). cbn [fst snd exited set_exited].
  split; [reflexivity |]. split.
  - unfold stdinWrites in *. rewrite flat_map_app, S6. reflexivity.
  - apply in_or_app. right. left. reflexivity.
Qed.

Lemma interrupt_at_idle_prompt_exits_witness :
  exited (fst (run subshell_cfg idle_world [EvSIGINT; EvResolve 0 AUnit])) = Some 0.
Proof.
  exact (proj1 (interrupt_at_idle_prompt_exits subshell_cfg idle_world
                  eq_refl eq_refl eq_refl eq_refl)).
Defined.

(** As [sat_walk], with lemmas about whole handlers tried first. *)
Ltac sat_walk_with known Hrefl Htrans leaf :=
  repeat first
    [ solve [ known ]
    | apply (sat_ret _ Hrefl)
    | apply (sat_get _ Hrefl)
    | apply (sat_bind _ Htrans); [ | intro ]
    | apply (sat_when _ Hrefl)
    | apply (sat_async _)
    | apply (sat_forEach _ Hrefl Htrans); intro
    | apply (sat_each _ Hrefl Htrans)
    | match goal with
      | |- sat _ (if ?b then _ else _) => destruct b eqn:?
      | |- sat _ (match ?x with _ => _ end) => destruct x eqn:?
      end
    | progress cbv zeta
    | progress unfold handle, on_resolve
    | progress unfold_handlers
    | solve [ leaf ] ].

(** ** The interrupt counter is 0 or 1 *)

Lemma keeps_counter_small_refl w : keeps_counter_small w w [].
Proof. unfold keeps_counter_small. auto. Qed.

Lemma keeps_counter_small_trans w w1 w2 o1 o2 :
  keeps_counter_small w w1 o1 -> keeps_counter_small w1 w2 o2 ->
  keeps_counter_small w w2 (o1 ++ o2).
Proof. unfold keeps_counter_small. auto. Qed.

(** The interrupt handler counts only when the counter is below 1. *)
Lemma on_SIGINT_counter_small : sat keeps_counter_small on_SIGINT.
Proof.
  intros w [Hlo Hhi]. unfold on_SIGINT. mred.
  destruct (countSIGINT w >=? 1) eqn:E; mred.
  - split; assumption.
  - rewrite Z.geb_leb in E. apply Z.leb_gt in E.
    destruct (currentJob w) as [job |]; unfold end_stream; mred;
      [destruct (existsb (Nat.eqb (stdoutStream job)) (endedL w)); mred |];
      unfold counter_small; cbn; lia.
Qed.

Ltac counter_leaf :=
  let H := fresh in
  intros ? H; unfold counter_small in *; mred; exact H.

Lemma resume_counter_small cfg p a h :
  resume cfg p a = Some h -> sat keeps_counter_small h.
Proof.
  destruct p, a; cbn [resume]; intro H; inversion H; subst; clear H;
    sat_walk keeps_counter_small_refl keeps_counter_small_trans
      ltac:(counter_leaf).
Qed.

Lemma handle_counter_small cfg ev : sat keeps_counter_small (handle cfg ev).
Proof.
  destruct ev;
    sat_walk_with ltac:(apply on_SIGINT_counter_small)
      keeps_counter_small_refl keeps_counter_small_trans
      ltac:(first [ eapply resume_counter_small; eassumption | counter_leaf ]).
Qed.

Lemma main_counter_small cfg : sat keeps_counter_small (main cfg).
Proof.
  sat_walk keeps_counter_small_refl keeps_counter_small_trans ltac:(counter_leaf).
Qed.

(** X4. In every session the interrupt counter is 0 or 1: the second
    interrupt ends the process before it is counted. *)
Theorem countSIGINT_at_most_one cfg evs :
  0 <= countSIGINT (fst (session cfg evs)) <= 1.
Proof.
  unfold session. cbn [fst].
  apply (run_sat cfg keeps_counter_small keeps_counter_small_refl
           keeps_counter_small_trans (handle_counter_small cfg)).
  apply (sat_exec keeps_counter_small (main cfg) init (main_counter_small cfg)).
  unfold counter_small. cbn. lia.
Qed.

(** ** What ends the process in the subshell *)

Lemma stays_alive_refl w : stays_alive w w [].
Proof. unfold stays_alive. auto. Qed.

Lemma stays_alive_trans w w1 w2 o1 o2 :
  stays_alive w w1 o1 -> stays_alive w1 w2 o2 -> stays_alive w w2 (o1 ++ o2).
Proof. unfold stays_alive. auto. Qed.

Ltac alive_leaf Hsub :=
  first [ exfalso; rewrite Hsub in *; discriminate
        | let H := fresh in intros ? H; mred; exact H ].

Lemma resume_stays_alive cfg p a h :
  isSubShell cfg = true ->
  p <> PListing -> p <> PConfirm -> p <> PSigintTrack ->
  resume cfg p a = Some h -> sat stays_alive h.
Proof.
  intros Hsub H1 H2 H3.
  destruct p, a; cbn [resume]; intro H; inversion H; subst; clear H;
    try congruence;
    sat_walk stays_alive_refl stays_alive_trans ltac:(alive_leaf Hsub).
Qed.

(** X5. In the subshell nothing that the transport or the dispatcher
    brings about ends the process, apart from the server's ['cancel']:
    not the end or an error of the output stream, not a failed
    dispatch, not a reconnect. Only lines, interrupts and ['cancel']
    can. *)
Theorem subshell_survives_transport cfg w ev :
  isSubShell cfg = true -> exited w = None -> from_transport w ev ->
  exited (fst (step cfg w ev)) = None.
Proof.
  intros Hsub Hex Hev.
  destruct ev as [| | | | | | | | | | | | i a]; cbn [from_transport] in Hev;
    try contradiction.
  10: { destruct (nth_error (pending w) i) as [p |] eqn:Hp.
        2: { rewrite step_resolve_none by (rewrite Hp; exact I). exact Hex. }
        destruct (resume cfg p a) as [h |] eqn:Hr.
        2: { rewrite step_resolve_none by (rewrite Hp; exact Hr). exact Hex. }
        rewrite (step_resolve cfg w i p a h Hex Hp Hr).
        apply (resume_stays_alive cfg p a h Hsub); try exact Hr;
          try (intro; subst p; contradiction).
        exact Hex. }
  all: rewrite (step_alive cfg w _ Hex);
    match goal with |- context [handle ?c ?e] =>
      assert (Hs : sat stays_alive (handle c e))
        by (sat_walk stays_alive_refl stays_alive_trans ltac:(alive_leaf Hsub))
    end;
    apply Hs; exact Hex.
Qed.

Lemma subshell_survives_transport_witness :
  exited (fst (step subshell_cfg running_world (EvStreamError 1 "reset"))) = None
  /\ exited (fst (step subshell_cfg subshell_dispatching
                    (EvResolve 0 (ADispatch (DispatchOtherError "timeout"))))) = None.
Proof.
  split.
  - apply (subshell_survives_transport subshell_cfg running_world
             (EvStreamError 1 "reset")); [reflexivity | reflexivity | exact I].
  - apply (subshell_survives_transport subshell_cfg subshell_dispatching
             (EvResolve 0 (ADispatch (DispatchOtherError "timeout"))));
      [reflexivity | reflexivity | exact I].
Defined.

(** ** A whole one-shot run *)

Lemma on_line_wp cfg w rest :
  commandRunning w = false -> log_truthy (opt_log cfg) = false ->
  on_line cfg ("wp " ++ rest) w =
  Cont tt (set_pending (pending w ++ [PDispatch ("wp " ++ rest)]) w)
    [ERlPause; EDispatch (appId cfg) (envId cfg) rest].
Proof.
  intros Hrun Hlog. unfold on_line. mred. rewrite Hrun.
  change (String.eqb ("wp " ++ rest) "") with false.
  change (Str.startsWith ("wp " ++ rest) "exit") with false.
  replace (Str.startsWith ("wp " ++ rest) "wp ") with true
    by (symmetry; apply (prefix_append "wp " rest)).
  change (Nat.eqb (String.length ("wp " ++ rest)) 0) with false.
  rewrite Hlog, (replace_prefix "wp " rest). mred. reflexivity.
Qed.

(** The command callback of a single command that needs no
    confirmation and has no line break: the line [wp <cmd>] is
    dispatched at once. *)
Lemma start_oneshot cfg :
  isSubShell cfg = false -> log_truthy (opt_log cfg) = false ->
  needs_confirm cfg = false -> Str.has_line_terminator (cmd cfg) = false ->
  start cfg =
  (set_muted false
     (set_pending [PDispatch ("wp " ++ cmd cfg)]
        (set_muted true (set_rlReady true init))),
   [ETrackEvent "wpcli_command_execute"; EDisableGlobalGraphQLErrorHandling;
    ERlPause; EDispatch (appId cfg) (envId cfg) (cmd cfg)]).
Proof.
  intros Hsub Hlog Hconf Hnl.
  assert (Htrue : log_is_true (opt_log cfg) = false).
  { destruct (opt_log cfg); try reflexivity. discriminate. }
  assert (Hprompt : final (main_prompt cfg init) =
    (set_muted false
       (set_pending [PDispatch ("wp " ++ cmd cfg)]
          (set_muted true (set_rlReady true init))),
     [EDisableGlobalGraphQLErrorHandling;
      ERlPause; EDispatch (appId cfg) (envId cfg) (cmd cfg)])).
  { rewrite (main_prompt_oneshot cfg init Hsub Hnl). unfold bind, async.
    cbn [emit modify].
    erewrite on_line_wp; [| reflexivity | exact Hlog]. reflexivity. }
  unfold start, main, main_execute. rewrite Htrue, Hsub.
  unfold needs_confirm in Hconf.
  destruct (String.eqb (envName cfg) "production");
    [destruct (opt_yes cfg); [| discriminate] |];
    rewrite exec_final; unfold bind at 1; cbn [emit];
    (destruct (main_prompt cfg init) as [u w1 o1 | w1 o1]; cbn [final] in *;
     inversion Hprompt; reflexivity).
Qed.

(** Chunks on the one output stream that is tracked and piped: each is
    written to stdout and counted. *)
Lemma run_chunks cfg s chunks w :
  exited w = None -> dataL w = [s] -> stdoutPipes w = [s] ->
  let r := run cfg w (map (EvStreamData s) chunks) in
  snd r = map EStdoutWrite chunks
  /\ exists total, fst r = set_currentOffset total w.
Proof.
  revert w. induction chunks as [| d chunks IH]; intros w Hex Hd Hp; cbn [map run].
  - split; [reflexivity |]. exists (currentOffset w). destruct w; reflexivity.
  - assert (Hstep : step cfg w (EvStreamData s d) =
      (set_currentOffset (Z.of_nat (String.length d) + currentOffset w) w,
       [EStdoutWrite d])).
    { rewrite (step_alive cfg w _ Hex). unfold handle. rewrite final_get_then.
      rewrite Hd, Hp. unfold listeners. cbn [count_occ].
      destruct (Nat.eq_dec s s) as [_ | H]; [| contradiction].
      reflexivity. }
    rewrite Hstep. cbn [fst snd].
    destruct (IH (set_currentOffset (Z.of_nat (String.length d) + currentOffset w) w)
                Hex Hd Hp) as [Hout [total Hw]].
    cbn zeta in *. rewrite Hout, Hw. split; [reflexivity |].
    exists total. reflexivity.
Qed.

(** The rest of the ['end'] listener when there is a job: the socket is
    closed, the pipes of the job are taken away and the offset is set
    to 0; then a single command exits, and the subshell prompts. *)
Lemma end_resumed_oneshot cfg w i job :
  isSubShell cfg = false -> exited w = None ->
  nth_error (pending w) i = Some PEndTrack -> currentJob w = Some job ->
  step cfg w (EvResolve i AUnit) =
  (set_exited (Some 0)
     (set_currentOffset 0
        (set_stdoutPipes (remove_first (stdoutStream job) (stdoutPipes w))
           (set_stdinPipes (remove_first (stdinStream job) (stdinPipes w))
              (set_pending (remove_nth i (pending w)) w)))),
   [ESocketClose (socket job); ERlClose; EExit 0]).
Proof.
  intros Hsub Hex Hp Hjob.
  erewrite step_resolve; [| exact Hex | exact Hp | reflexivity].
  unfold on_stream_end_resumed. mred. rewrite Hjob, Hsub. reflexivity.
Qed.

(** X6. A single command that needs no confirmation and whose command
    line holds no line break, from start to end: the dispatcher is
    called once, with the command line; when it has answered and the
    transport is open, the chunks of the output stream are what the
    program and its pipes write to stdout, in the order of arrival
    (what readline writes there by itself, as when it clears the line,
    is not counted); and when the stream has ended the process exits
    with status 0, with the offset back at 0 and the pipes taken
    away. *)
Theorem oneshot_run cfg guid tok chunks :
  isSubShell cfg = false -> log_truthy (opt_log cfg) = false ->
  needs_confirm cfg = false -> Str.has_line_terminator (cmd cfg) = false ->
  let r := session cfg
             ([EvResolve 0 (ADispatch (DispatchOk guid tok)); EvResolve 0 AUnit]
              ++ map (EvStreamData 1) chunks
              ++ [EvStreamEnd 1; EvResolve 0 AUnit]) in
  exited (fst r) = Some 0
  /\ dispatchCalls (snd r) = [cmd cfg]
  /\ stdoutWrites (snd r) = chunks
  /\ currentOffset (fst r) = 0
  /\ stdinPipes (fst r) = [] /\ stdoutPipes (fst r) = [].
Proof.
  intros Hsub Hlog Hconf Hnl. unfold session.
  rewrite (start_oneshot cfg Hsub Hlog Hconf Hnl). cbn [fst snd].
  set (W0 := set_muted false _).
  cbn [app run]. cbn [fst snd].
  assert (H1 : exists o1,
    step cfg W0 (EvResolve 0 (ADispatch (DispatchOk guid tok)))
    = (set_pending [PLaunchLine (GuidStr guid) (Some tok) None] W0, o1)
    /\ stdoutWrites o1 = [] /\ dispatchCalls o1 = []).
  { erewrite step_resolve; [| reflexivity | reflexivity | reflexivity].
    unfold on_line_dispatched, line_launch. mred.
    destruct (Str.includes _ _); mred; eexists; repeat split. }
  destruct H1 as [o1 [H1 [Ho1 Hd1]]]. rewrite H1. cbn [fst snd].
  set (W1 := set_pending _ W0).
  rewrite (step_resolve cfg W1 0 (PLaunchLine (GuidStr guid) (Some tok) None) AUnit
             (on_line_launched cfg (GuidStr guid) (Some tok) None)
             eq_refl eq_refl eq_refl).
  rewrite line_launched. cbn [fst snd].
  match goal with |- context [run cfg ?w (map _ chunks ++ _)] => set (W2 := w) end.
  rewrite run_app. cbn [fst snd].
  destruct (run_chunks cfg 1%nat chunks W2 eq_refl eq_refl eq_refl)
    as [Hout [total Hw]].
  cbn zeta in Hout, Hw. rewrite Hout, Hw.
  set (W3 := set_currentOffset total W2).
  cbn [run]. cbn [fst snd].
  rewrite (step_alive cfg W3 (EvStreamEnd 1) eq_refl).
  change (final (handle cfg (EvStreamEnd 1) W3)) with
    (set_pending [PEndTrack] (set_commandRunning false (set_endedL [1%nat] W3)),
     [ERlClearLine; ETrackEvent "wpcli_command_end"]).
  cbn [fst snd].
  erewrite end_resumed_oneshot;
    [| exact Hsub | reflexivity | reflexivity | reflexivity].
  cbn [fst snd].
  assert (Hchunks : forall l, stdoutWrites (map EStdoutWrite l) = l).
  { induction l as [| x l IH]; [reflexivity |].
    unfold stdoutWrites in *. cbn [map flat_map app]. rewrite IH. reflexivity. }
  assert (Hnone : forall l, dispatchCalls (map EStdoutWrite l) = []).
  { induction l as [| x l IH]; [reflexivity |].
    unfold dispatchCalls in *. cbn [map flat_map app]. exact IH. }
  split; [reflexivity | split; [| split; [| repeat split]]].
  - unfold dispatchCalls in *.
    repeat (progress (cbn [flat_map app]; rewrite ?flat_map_app)).
    rewrite Hd1, Hnone. reflexivity.
  - unfold stdoutWrites in *.
    repeat (progress (cbn [flat_map app]; rewrite ?flat_map_app)).
    rewrite Ho1, Hchunks. cbn [flat_map app].
    rewrite app_nil_r. reflexivity.
Qed.

Lemma oneshot_run_witness :
  let r := session develop_cfg
             ([EvResolve 0 (ADispatch (DispatchOk "g1" "tok")); EvResolve 0 AUnit]
              ++ map (EvStreamData 1) ["https://"; "example.com"]
              ++ [EvStreamEnd 1; EvResolve 0 AUnit]) in
  exited (fst r) = Some 0
  /\ dispatchCalls (snd r) = ["option get siteurl"]
  /\ stdoutWrites (snd r) = ["https://"; "example.com"].
Proof.
  destruct (oneshot_run develop_cfg "g1" "tok" ["https://"; "example.com"]
              eq_refl eq_refl eq_refl eq_refl) as [H1 [H2 [H3 _]]].
  repeat split; assumption.
Defined.

(** ** The placeholders of a reconnect attempt *)

(** The ['reconnect_attempt'] listener when there is a job. *)
Lemma on_reconnect_attempt_eq w job :
  currentJob w = Some job ->
  on_reconnect_attempt w =
  Cont tt
    (set_boundL (boundL w ++ [S (nextId w)])
       (set_currentJob (Some (mkJob (stdinStream job) (S (nextId w)) (socket job)))
          (set_nextId (S (S (nextId w)))
             (set_stdinPipes
                (remove_first (stdinStream job) (stdinPipes w) ++ [nextId w]) w))))
    [EConsoleError "There was an error connecting to the server. Retrying..."].
Proof.
  intro Hjob. unfold on_reconnect_attempt. mred. rewrite Hjob.
  destruct w; reflexivity.
Qed.

Lemma remove_first_Forall (P : nat -> Prop) x l :
  Forall P l -> Forall P (remove_first x l).
Proof.
  induction 1 as [| y l Hy Hl IH]; cbn [remove_first]; [constructor |].
  destruct (Nat.eqb y x); [assumption | constructor; assumption].
Qed.

Lemma remove_first_absent x l : ~ In x l -> remove_first x l = l.
Proof.
  induction l as [| y l IH]; intro H; cbn [remove_first]; [reflexivity |].
  destruct (Nat.eqb_spec y x) as [E | E].
  - exfalso. apply H. left. exact E.
  - rewrite IH; [reflexivity |]. intro Hin. apply H. right. exact Hin.
Qed.

Lemma known_absent n l : Forall (fun s => (s < n)%nat) l -> forall m, (n <= m)%nat -> ~ In m l.
Proof.
  intros H m Hm Hin. rewrite Forall_forall in H. specialize (H m Hin). lia.
Qed.

Lemma keeps_pipes_known_refl w : keeps_pipes_known w w [].
Proof. unfold keeps_pipes_known. auto. Qed.

Lemma keeps_pipes_known_trans w w1 w2 o1 o2 :
  keeps_pipes_known w w1 o1 -> keeps_pipes_known w1 w2 o2 ->
  keeps_pipes_known w w2 (o1 ++ o2).
Proof. unfold keeps_pipes_known. auto. Qed.

Lemma Forall_lt_weaken n m l :
  (n <= m)%nat -> Forall (fun s => (s < n)%nat) l -> Forall (fun s => (s < m)%nat) l.
Proof. intros Hnm H. eapply Forall_impl; [| exact H]. cbn. intros. lia. Qed.

Lemma Forall_lt_snoc n m l x :
  (n <= m)%nat -> (x < m)%nat ->
  Forall (fun s => (s < n)%nat) l -> Forall (fun s => (s < m)%nat) (l ++ [x]).
Proof.
  intros Hnm Hx H. apply Forall_app. split.
  - apply (Forall_lt_weaken n m); assumption.
  - constructor; [assumption | constructor].
Qed.

Lemma on_line_launched_pipes_known cfg guid inputToken action :
  sat keeps_pipes_known (on_line_launched cfg guid inputToken action).
Proof.
  intros w [Hin Hout]. rewrite line_launched. cbn [fst]. split; cbn.
  - apply (Forall_lt_snoc (nextId w)); [lia | lia | assumption].
  - apply (Forall_lt_snoc (nextId w)); [lia | lia | assumption].
Qed.

Lemma on_reconnect_resumed_pipes_known cfg guid inputToken offset :
  sat keeps_pipes_known (on_reconnect_resumed cfg guid inputToken offset).
Proof.
  intros w [Hin Hout]. rewrite reconnect_resumed. cbn [fst]. split; cbn.
  - apply (Forall_lt_snoc (nextId w)); [lia | lia | assumption].
  - apply (Forall_lt_snoc (nextId w)); [lia | lia | assumption].
Qed.

Lemma on_reconnect_attempt_pipes_known : sat keeps_pipes_known on_reconnect_attempt.
Proof.
  intros w [Hin Hout]. destruct (currentJob w) as [job |] eqn:Hjob.
  - rewrite (on_reconnect_attempt_eq w job Hjob). split; cbn.
    + apply (Forall_lt_snoc (nextId w)); [lia | lia |].
      apply remove_first_Forall. assumption.
    + apply (Forall_lt_weaken (nextId w)); [lia | assumption].
  - unfold on_reconnect_attempt. mred. rewrite Hjob. split; assumption.
Qed.

Ltac pipes_leaf :=
  let H := fresh in
  intros ? H; destruct H as [? ?]; unfold pipes_known; mred;
  split;
  first [ assumption
        | apply remove_first_Forall; assumption
        | eapply Forall_lt_weaken; [| eassumption]; cbn; lia ].

Ltac pipes_known_lemmas :=
  first [ apply on_line_launched_pipes_known
        | apply on_reconnect_resumed_pipes_known
        | apply on_reconnect_attempt_pipes_known ].

Lemma resume_pipes_known cfg p a h :
  resume cfg p a = Some h -> sat keeps_pipes_known h.
Proof.
  destruct p, a; cbn [resume]; intro H; inversion H; subst; clear H;
    sat_walk_with ltac:(pipes_known_lemmas)
      keeps_pipes_known_refl keeps_pipes_known_trans ltac:(pipes_leaf).
Qed.

Lemma handle_pipes_known cfg ev : sat keeps_pipes_known (handle cfg ev).
Proof.
  destruct ev;
    sat_walk_with ltac:(pipes_known_lemmas)
      keeps_pipes_known_refl keeps_pipes_known_trans
      ltac:(first [ eapply resume_pipes_known; eassumption | pipes_leaf ]).
Qed.

Lemma main_pipes_known cfg : sat keeps_pipes_known (main cfg).
Proof.
  sat_walk keeps_pipes_known_refl keeps_pipes_known_trans ltac:(pipes_leaf).
Qed.

(** In every session the pipes name streams that have been created. *)
Lemma session_pipes_known cfg evs : pipes_known (fst (session cfg evs)).
Proof.
  unfold session. cbn [fst].
  apply (run_sat cfg keeps_pipes_known keeps_pipes_known_refl
           keeps_pipes_known_trans (handle_pipes_known cfg)).
  apply (sat_exec keeps_pipes_known (main cfg) init (main_pipes_known cfg)).
  split; constructor.
Qed.

Lemma final_then_ret (h : M unit) (w : World) :
  final (bind h (fun _ => ret tt) w) = final (h w).
Proof.
  unfold bind, ret. destruct (h w) as [u w1 o | w1 o]; cbn [final];
    [rewrite app_nil_r |]; reflexivity.
Qed.

(** A chunk on a stream without the offset listener is not counted. *)
Lemma step_untracked_chunk cfg w s data :
  ~ In s (dataL w) ->
  currentOffset (fst (step cfg w (EvStreamData s data))) = currentOffset w.
Proof.
  intro Hs. destruct (exited w) eqn:Hex.
  { rewrite (step_exited cfg w _ z Hex). reflexivity. }
  rewrite (step_alive cfg w _ Hex). unfold handle. rewrite final_get_then.
  assert (H0 : listeners s (dataL w) = 0%nat).
  { unfold listeners. apply count_occ_not_In. exact Hs. }
  rewrite H0. cbn [each].
  erewrite final_bind_cont by reflexivity.
  match goal with |- context [each ?n ?h ?v] =>
    pose proof (sat_each keeps_offset keeps_offset_refl keeps_offset_trans n h) as K;
    specialize (K ltac:(offset_leaf) v)
  end.
  exact K.
Qed.

Lemma step_reconnect_attempt cfg w sock c job :
  exited w = None -> currentJob w = Some job ->
  reconnect_listeners sock (reconnL w) = [c] ->
  step cfg w (EvReconnectAttempt sock) =
  (set_boundL (boundL w ++ [S (nextId w)])
     (set_currentJob (Some (mkJob (stdinStream job) (S (nextId w)) (socket job)))
        (set_nextId (S (S (nextId w)))
           (set_stdinPipes
              (remove_first (stdinStream job) (stdinPipes w) ++ [nextId w]) w))),
   [EConsoleError "There was an error connecting to the server. Retrying..."]).
Proof.
  intros Hex Hjob Hl. rewrite (step_alive cfg w _ Hex).
  unfold handle. rewrite final_get_then, Hl. cbn [forEach].
  rewrite final_then_ret, (on_reconnect_attempt_eq w job Hjob). reflexivity.
Qed.

(** X7. A reconnect attempt puts placeholders in: stdin is taken from
    the input stream of the job and piped into a new stream; the output
    stream of the job is replaced by a new stream that carries the
    ['end'] and ['error'] listeners but not the offset listener, so a
    chunk on it is not counted; what is piped into stdout, the offset
    and the running flag stay as they are. *)
Theorem reconnect_attempt_placeholders cfg w sock c job :
  wf w -> exited w = None -> currentJob w = Some job ->
  reconnect_listeners sock (reconnL w) = [c] ->
  let w' := fst (step cfg w (EvReconnectAttempt sock)) in
  stdinPipes w' = (remove_first (stdinStream job) (stdinPipes w) ++ [nextId w])%list
  /\ stdoutPipes w' = stdoutPipes w
  /\ currentJob w' = Some (mkJob (stdinStream job) (S (nextId w)) (socket job))
  /\ In (S (nextId w)) (boundL w')
  /\ ~ In (S (nextId w)) (dataL w')
  /\ currentOffset w' = currentOffset w
  /\ commandRunning w' = commandRunning w
  /\ (forall data,
        currentOffset (fst (step cfg w' (EvStreamData (S (nextId w)) data)))
        = currentOffset w).
Proof.
  intros [_ [Hlt _]] Hex Hjob Hl w'. unfold w'.
  rewrite (step_reconnect_attempt cfg w sock c job Hex Hjob Hl). cbn [fst].
  assert (Hfresh : ~ In (S (nextId w)) (dataL w)).
  { apply (known_absent (nextId w)); [assumption | lia]. }
  repeat split; try reflexivity.
  - cbn. apply in_snoc.
  - exact Hfresh.
  - intro data. rewrite step_untracked_chunk; [reflexivity | exact Hfresh].
Qed.

Lemma reconnect_attempt_placeholders_witness :
  let w' := fst (step subshell_cfg running_world (EvReconnectAttempt 0)) in
  stdinPipes w' = [3%nat]
  /\ stdoutPipes w' = [1%nat]
  /\ currentJob w' = Some (mkJob 2 4 0)
  /\ currentOffset (fst (step subshell_cfg w' (EvStreamData 4 "lost"))) = 0.
Proof.
  assert (Hex : exited running_world = None) by (vm_compute; reflexivity).
  assert (Hjob : currentJob running_world = Some (mkJob 2 1 0))
    by (vm_compute; reflexivity).
  assert (Hl : reconnect_listeners 0 (reconnL running_world)
               = [(GuidStr "g1", Some "tok")]) by (vm_compute; reflexivity).
  destruct (reconnect_attempt_placeholders subshell_cfg running_world 0%nat
              (GuidStr "g1", Some "tok") (mkJob 2 1 0)
              (session_wf subshell_cfg launch_events) Hex Hjob Hl)
    as [H1 [H2 [H3 [_ [_ [_ [_ H8]]]]]]].
  cbv zeta. rewrite H1, H2, H3.
  split; [vm_compute; reflexivity | split; [vm_compute; reflexivity | split]].
  - vm_compute. reflexivity.
  - pose proof (H8 "lost") as H. vm_compute in H. vm_compute. exact H.
Defined.

(** X8. After a reconnect attempt and the reconnect that follows it,
    the output stream the job had before is still piped into stdout,
    beside the output stream of the new job: the reconnect handler
    unpipes the placeholder, which was never piped, and not the old
    stream. *)
Theorem old_output_stays_piped cfg evs sock c job :
  let w := fst (session cfg evs) in
  exited w = None -> currentJob w = Some job ->
  In (stdoutStream job) (stdoutPipes w) ->
  reconnect_listeners sock (reconnL w) = [c] ->
  let w' := fst (run cfg w [EvReconnectAttempt sock; EvReconnect sock;
                            EvResolve (List.length (pending w)) AUnit]) in
  In (stdoutStream job) (stdoutPipes w')
  /\ exists job',
       currentJob w' = Some job'
       /\ In (stdoutStream job') (stdoutPipes w')
       /\ stdoutStream job' <> stdoutStream job.
Proof.
  intros w Hex Hjob Hin Hl.
  destruct (session_pipes_known cfg evs) as [_ Hknown]. fold w in Hknown.
  cbn [run]. cbn [fst snd].
  rewrite (step_reconnect_attempt cfg w sock c job Hex Hjob Hl). cbn [fst].
  set (w1 := set_boundL _ _).
  assert (H2 : step cfg w1 (EvReconnect sock) =
    final (on_reconnect (fst c) (snd c) w1)).
  { rewrite (step_alive cfg w1 _ Hex). unfold handle. rewrite final_get_then.
    change (reconnL w1) with (reconnL w). rewrite Hl. cbn [forEach].
    rewrite final_then_ret, final_async. reflexivity. }
  rewrite H2.
  rewrite (on_reconnect_parks (fst c) (snd c) w1
             (mkJob (stdinStream job) (S (nextId w)) (socket job)) eq_refl).
  cbn [final fst stdinStream stdoutStream].
  change (stdoutPipes w1) with (stdoutPipes w).
  rewrite (remove_first_absent (S (nextId w)) (stdoutPipes w))
    by (apply (known_absent (nextId w)); [assumption | lia]).
  erewrite step_resolve;
    [| exact Hex | cbn [pending set_pending set_stdoutPipes set_stdinPipes];
                   change (pending w1) with (pending w); apply nth_error_snoc
     | reflexivity].
  rewrite reconnect_resumed. cbn [fst].
  cbn [stdoutPipes currentJob set_boundL set_stdoutPipes set_stdinPipes
       set_currentJob set_socketL set_dataL set_nextId set_pending nextId].
  split.
  - apply in_or_app. left. exact Hin.
  - eexists. split; [reflexivity |]. cbn [stdoutStream]. split.
    + apply in_snoc.
    + rewrite Forall_forall in Hknown. specialize (Hknown _ Hin).
      change (nextId w1) with (S (S (nextId w))). lia.
Qed.

Lemma old_output_stays_piped_witness :
  In 1%nat
    (stdoutPipes
       (fst (run subshell_cfg (fst (session subshell_cfg launch_events))
               [EvReconnectAttempt 0; EvReconnect 0; EvResolve 0 AUnit]))).
Proof.
  assert (Hex : exited (fst (session subshell_cfg launch_events)) = None)
    by (vm_compute; reflexivity).
  assert (Hjob : currentJob (fst (session subshell_cfg launch_events))
                 = Some (mkJob 2 1 0)) by (vm_compute; reflexivity).
  assert (Hin : In 1%nat (stdoutPipes (fst (session subshell_cfg launch_events))))
    by (vm_compute; left; reflexivity).
  assert (Hl : reconnect_listeners 0 (reconnL (fst (session subshell_cfg launch_events)))
               = [(GuidStr "g1", Some "tok")]) by (vm_compute; reflexivity).
  destruct (old_output_stays_piped subshell_cfg launch_events 0%nat
              (GuidStr "g1", Some "tok") (mkJob 2 1 0) Hex Hjob Hin Hl) as [H _].
  replace (List.length (pending (fst (session subshell_cfg launch_events))))
    with 0%nat in H by (vm_compute; reflexivity).
  exact H.
Defined.

(** * Quoting the arguments again *)

Lemma requoteArg_without_space arg :
  Str.includes arg " " = false -> requoteArg arg = arg.
Proof.
  intro H. unfold requoteArg. rewrite H, andb_false_r. reflexivity.
Qed.

(** X9. [requoteArgs] keeps the number of the arguments, and leaves a
    list of arguments without spaces as it is. *)
Theorem requoteArgs_without_spaces args :
  List.length (requoteArgs args) = List.length args
  /\ (Forall (fun arg => Str.includes arg " " = false) args ->
      requoteArgs args = args).
Proof.
  unfold requoteArgs. split; [apply length_map |].
  induction 1 as [| arg args Harg Hargs IH]; cbn [map]; [reflexivity |].
  rewrite (requoteArg_without_space arg Harg), IH. reflexivity.
Qed.

Lemma requoteArgs_without_spaces_witness :
  requoteArgs ["post"; "list"; "--format=json"] = ["post"; "list"; "--format=json"].
Proof.
  apply (requoteArgs_without_spaces ["post"; "list"; "--format=json"]).
  repeat constructor.
Defined.

(** X10. An option [--key=value] with a space somewhere gets its value
    put in double quotes, the value being what follows the last [=]:
    [--key=] and the value are otherwise kept (no line break in the
    argument). *)
Theorem requoteArg_option key value :
  Str.has_line_terminator (key ++ "=" ++ value) = false ->
  Str.includes value "=" = false ->
  Str.includes ("--" ++ key ++ "=" ++ value) " " = true ->
  requoteArg ("--" ++ key ++ "=" ++ value)
  = "--" ++ key ++ "=" ++ dquote ++ value ++ dquote.
Proof.
  intros Hlt Hv Hsp. unfold requoteArg.
  replace (Str.includes ("--" ++ key ++ "=" ++ value) "--") with true
    by (symmetry; apply (includes_append "" "--" (key ++ "=" ++ value))).
  replace (Str.includes ("--" ++ key ++ "=" ++ value) "=") with true.
  2: { symmetry. rewrite <- (append_assoc "--" key ("=" ++ value)).
       apply (includes_append ("--" ++ key) "=" value). }
  rewrite Hsp. cbn [andb].
  unfold Str.startsWith. rewrite (prefix_append "--" (key ++ "=" ++ value)).
  replace (String.substring 2 (String.length ("--" ++ key ++ "=" ++ value) - 2)
             ("--" ++ key ++ "=" ++ value))
    with (key ++ "=" ++ value)
    by (symmetry; apply (substring_after "--" (key ++ "=" ++ value))).
  rewrite Hlt, (split_last_eq_append key value (split_last_eq_none value Hv)).
  reflexivity.
Qed.

Lemma requoteArg_option_witness :
  requoteArg "--title=a=b Hello world"
  = "--title=a=" ++ dquote ++ "b Hello world" ++ dquote.
Proof.
  apply (requoteArg_option "title=a" "b Hello world"); reflexivity.
Defined.

(** X11. An argument with a space that lacks [--] or lacks [=] is put
    in double quotes whole; an argument with a space that has both but
    does not begin with [--] is passed on as it is, its space
    unquoted. *)
Theorem requoteArg_with_space arg :
  Str.includes arg " " = true ->
  (Str.includes arg "--" = false \/ Str.includes arg "=" = false ->
   requoteArg arg = dquote ++ arg ++ dquote)
  /\ (Str.includes arg "--" = true -> Str.includes arg "=" = true ->
      Str.startsWith arg "--" = false -> requoteArg arg = arg).
Proof.
  intro Hsp. unfold requoteArg. rewrite Hsp. split.
  - intros [H | H]; rewrite H; [| rewrite andb_false_r]; reflexivity.
  - intros H1 H2 H3. rewrite H1, H2, H3. reflexivity.
Qed.

Lemma requoteArg_with_space_witness :
  requoteArg "Hello world" = dquote ++ "Hello world" ++ dquote
  /\ requoteArg "eval --skip=a b" = "eval --skip=a b".
Proof.
  split.
  - apply (requoteArg_with_space "Hello world"); [reflexivity |].
    left. reflexivity.
  - apply (requoteArg_with_space "eval --skip=a b"); reflexivity.
Defined.

(** * Data on stdin *)

(** X12. Data on stdin goes to every stream stdin is piped into, and
    changes nothing else; only a lone carriage return while a command
    runs is preceded by a newline written to the input stream of the
    job. *)
Theorem stdin_return_gets_newline cfg w job data :
  rlReady w = true -> exited w = None -> currentJob w = Some job ->
  step cfg w (EvStdinData data) =
  (w,
   (if commandRunning w && String.eqb data (String "013"%char "")
    then [EStreamWrite (stdinStream job) (String "010"%char "")]
    else [])
   ++ map (fun dest => EStreamWrite dest data) (stdinPipes w))%list.
Proof.
  intros Hrl Hex Hjob. rewrite (step_alive cfg w _ Hex).
  unfold handle. rewrite final_get_then, Hrl. cbn [when].
  unfold bind at 1, on_stdin_data, bind at 1, get. rewrite Hjob.
  destruct (commandRunning w && String.eqb data (String "013"%char ""));
    cbn [when emit ret];
    rewrite (forEach_emit (fun dest => EStreamWrite dest data)); reflexivity.
Qed.

Lemma stdin_return_gets_newline_witness :
  snd (step subshell_cfg running_world (EvStdinData (String "013"%char "")))
  = [EStreamWrite 2 (String "010"%char ""); EStreamWrite 2 (String "013"%char "")]
  /\ snd (step subshell_cfg running_world (EvStdinData "y"))
     = [EStreamWrite 2 "y"].
Proof.
  assert (Hrl : rlReady running_world = true) by (vm_compute; reflexivity).
  assert (Hex : exited running_world = None) by (vm_compute; reflexivity).
  assert (Hjob : currentJob running_world = Some (mkJob 2 1 0))
    by (vm_compute; reflexivity).
  split.
  - rewrite (stdin_return_gets_newline subshell_cfg running_world (mkJob 2 1 0)
               (String "013"%char "") Hrl Hex Hjob).
    vm_compute. reflexivity.
  - rewrite (stdin_return_gets_newline subshell_cfg running_world (mkJob 2 1 0)
               "y" Hrl Hex Hjob).
    vm_compute. reflexivity.
Defined.

(** * A command of the subshell, from prompt to prompt *)








(** * Lines while a command runs *)

(** X14. While a command runs the prompt is deaf: lines, however many
    and whatever they hold, change nothing and produce nothing; what
    is typed reaches the command through the pipe of stdin only. *)
Theorem lines_ignored_while_running cfg w lines :
  commandRunning w = true ->
  run cfg w (map EvLine lines) = (w, []).
Proof.
  intro Hrun. induction lines as [| line lines IH]; cbn [map run].
  - reflexivity.
  - assert (Hstep : step cfg w (EvLine line) = (w, [])).
    { unfold step. destruct (exited w); [reflexivity |].
      unfold handle, on_line. mred.
      destruct (rlReady w); mred; [| reflexivity].
      rewrite Hrun. reflexivity. }
    rewrite Hstep. cbn [fst snd]. rewrite IH. reflexivity.
Qed.

Lemma lines_ignored_while_running_witness :
  run subshell_cfg running_world
    (map EvLine ["wp plugin list"; "exit"; ""; "something else"])
  = (running_world, []).
Proof.
  apply (lines_ignored_while_running subshell_cfg running_world
           ["wp plugin list"; "exit"; ""; "something else"]).
  vm_compute. reflexivity.
Defined.

(** ** The next-tick queue

    Only the interrupt listener puts anything into the queue, and the
    queue is run right after it: between two events it is empty. *)

Lemma keeps_queue_empty_refl w : keeps_queue_empty w w [].
Proof. unfold keeps_queue_empty. auto. Qed.

Lemma keeps_queue_empty_trans w w1 w2 o1 o2 :
  keeps_queue_empty w w1 o1 -> keeps_queue_empty w1 w2 o2 ->
  keeps_queue_empty w w2 (o1 ++ o2).
Proof. unfold keeps_queue_empty. auto. Qed.

Ltac queue_leaf :=
  let H := fresh in
  intros ? H; mred; exact H.

Lemma resume_queue_empty cfg p a h :
  resume cfg p a = Some h -> sat keeps_queue_empty h.
Proof.
  destruct p, a; cbn [resume]; intro H; inversion H; subst; clear H;
    sat_walk keeps_queue_empty_refl keeps_queue_empty_trans ltac:(queue_leaf).
Qed.

Lemma SIGINT_queue_empty cfg : sat keeps_queue_empty (handle cfg EvSIGINT).
Proof.
  intros w Hw. unfold handle. cbv beta iota delta [bind get when].
  destruct (rlReady w); [| exact Hw].
  unfold async. destruct (on_SIGINT w) as [u w1 o1 | w1 o1] eqn:E.
  - destruct (nextTick_ends w1) as [w2 [o2 [E2 [R _]]]]. rewrite E2.
    cbn [final fst]. destruct R as [_ [_ [_ [_ [R _]]]]]. exact R.
  - revert E. unfold on_SIGINT, end_stream. mred.
    destruct (countSIGINT w >=? 1); mred.
    + intro E. inversion E; subst. cbn. exact Hw.
    + destruct (currentJob w) as [job |]; mred;
        [destruct (existsb (Nat.eqb (stdoutStream job)) (endedL w)); mred |];
        discriminate.
Qed.

Lemma handle_queue_empty cfg ev : sat keeps_queue_empty (handle cfg ev).
Proof.
  destruct ev;
    sat_walk_with ltac:(apply SIGINT_queue_empty)
      keeps_queue_empty_refl keeps_queue_empty_trans
      ltac:(first [ eapply resume_queue_empty; eassumption | queue_leaf ]).
Qed.

Lemma main_queue_empty cfg : sat keeps_queue_empty (main cfg).
Proof.
  sat_walk keeps_queue_empty_refl keeps_queue_empty_trans ltac:(queue_leaf).
Qed.

Lemma session_queue_empty cfg evs : ticks (fst (session cfg evs)) = [].
Proof.
  unfold session. cbn [fst].
  apply (run_sat cfg keeps_queue_empty keeps_queue_empty_refl
           keeps_queue_empty_trans (handle_queue_empty cfg)).
  apply (sat_exec keeps_queue_empty (main cfg) init (main_queue_empty cfg)).
  reflexivity.
Qed.

(** * A line break in the arguments of a single command *)

Lemma on_line_exit cfg w line :
  commandRunning w = false -> Str.startsWith line "exit" = true ->
  on_line cfg line w = Stop (set_exited (Some 0) w) [ERlClose; EExit 0].
Proof.
  intros Hrun Hexit. unfold on_line. mred. rewrite Hrun.
  assert (Hne : String.eqb line "" = false).
  { destruct line; [discriminate | reflexivity]. }
  rewrite Hne, Hexit. mred. reflexivity.
Qed.

Lemma on_line_invalid cfg w line :
  commandRunning w = false -> line <> "" ->
  Str.startsWith line "exit" = false -> Str.startsWith line "wp " = false ->
  line <> cancelCommandChar -> log_truthy (opt_log cfg) = false ->
  on_line cfg line w = Cont tt w [invalid_command; ERlPrompt].
Proof.
  intros Hrun Hne Hexit Hwp Hcc Hlog. unfold on_line. mred. rewrite Hrun.
  rewrite (eqb_false_of_neq _ _ Hne), Hexit. mred.
  rewrite Hwp, (eqb_false_of_neq _ _ Hcc), Hlog.
  rewrite orb_true_r. cbn [negb andb]. mred. reflexivity.
Qed.

(** A command line with one line feed reaches the line handler as two
    lines. *)
Lemma write_two_lines cfg c1 c2 w :
  Str.has_line_terminator c1 = false -> Str.has_line_terminator c2 = false ->
  subShellRl_write cfg ("wp " ++ (c1 ++ String "010"%char c2) ++ String "010"%char "") w
  = (async (on_line cfg ("wp " ++ c1)) ;; async (on_line cfg c2) ;; ret tt) w.
Proof.
  intros H1 H2. unfold subShellRl_write.
  replace ("wp " ++ (c1 ++ String "010"%char c2) ++ String "010"%char "")
    with (("wp " ++ c1) ++ String "010"%char (c2 ++ String "010"%char "")).
  - rewrite (split_lines_cons ("wp " ++ c1) _ H1), (split_lines_line c2 H2).
    reflexivity.
  - rewrite (append_assoc "wp " c1 _).
    rewrite (append_assoc c1 (String "010"%char c2) _). reflexivity.
Qed.

(** X15. A line feed in an argument of a single command: readline
    hands the command line to the line handler as two lines.  The part
    before the line feed is dispatched as the command; the part after
    it is a line of its own: where it starts with [exit] the process
    exits with status 0 before the dispatcher has answered, and where
    it is not a command it is answered with the validation message. *)
Theorem line_feed_splits_command cfg c1 c2 :
  isSubShell cfg = false -> log_truthy (opt_log cfg) = false ->
  needs_confirm cfg = false ->
  cmd cfg = c1 ++ String "010"%char c2 ->
  Str.has_line_terminator c1 = false -> Str.has_line_terminator c2 = false ->
  (Str.startsWith c2 "exit" = true ->
   start cfg =
   (set_exited (Some 0)
      (set_pending [PDispatch ("wp " ++ c1)] (set_muted true (set_rlReady true init))),
    [ETrackEvent "wpcli_command_execute"; EDisableGlobalGraphQLErrorHandling;
     ERlPause; EDispatch (appId cfg) (envId cfg) c1; ERlClose; EExit 0]))
  /\ (c2 <> "" -> Str.startsWith c2 "exit" = false ->
      Str.startsWith c2 "wp " = false -> c2 <> cancelCommandChar ->
      start cfg =
      (set_muted false
         (set_pending [PDispatch ("wp " ++ c1)] (set_muted true (set_rlReady true init))),
       [ETrackEvent "wpcli_command_execute"; EDisableGlobalGraphQLErrorHandling;
        ERlPause; EDispatch (appId cfg) (envId cfg) c1;
        invalid_command; ERlPrompt])).
Proof.
  intros Hsub Hlog Hconf Hcmd H1 H2.
  assert (Htrue : log_is_true (opt_log cfg) = false).
  { destruct (opt_log cfg); try reflexivity. discriminate. }
  assert (Hstart : start cfg =
    (fst (final (main_prompt cfg init)),
     ETrackEvent "wpcli_command_execute" :: snd (final (main_prompt cfg init)))).
  { unfold start, main, main_execute. rewrite Htrue, Hsub.
    unfold needs_confirm in Hconf.
    destruct (String.eqb (envName cfg) "production");
      [destruct (opt_yes cfg); [| discriminate] |];
      rewrite exec_final; unfold bind at 1; cbn [emit];
      destruct (main_prompt cfg init) as [u w1 o1 | w1 o1]; reflexivity. }
  rewrite Hstart. clear Hstart.
  assert (Hfirst : forall w, commandRunning w = false ->
    async (on_line cfg ("wp " ++ c1)) w =
    Cont tt (set_pending (pending w ++ [PDispatch ("wp " ++ c1)]) w)
      [ERlPause; EDispatch (appId cfg) (envId cfg) c1]).
  { intros w Hw. unfold async. rewrite (on_line_wp cfg w c1 Hw Hlog). reflexivity. }
  unfold main_prompt. rewrite Hsub, Hcmd. cbn [negb].
  cbv beta iota delta [bind emit modify].
  rewrite (write_two_lines cfg c1 c2 _ H1 H2).
  cbv beta iota delta [bind ret].
  rewrite Hfirst by reflexivity.
  split.
  - intro Hexit. unfold async.
    erewrite on_line_exit; [| reflexivity | exact Hexit].
    reflexivity.
  - intros Hne Hexit Hwp Hcc. unfold async.
    erewrite on_line_invalid;
      [| reflexivity | exact Hne | exact Hexit | exact Hwp | exact Hcc | exact Hlog].
    reflexivity.
Qed.

Lemma line_feed_splits_command_witness :
  let cfg := mkConfig ["eval"; String "a" (String "010"%char "exit")]
               false LogUnset 7 "site" 3 11 "develop" "example.com" 80 24 in
  dispatchCalls (snd (start cfg)) = ["eval a"]
  /\ exited (fst (start cfg)) = Some 0.
Proof.
  cbv zeta.
  destruct (line_feed_splits_command
              (mkConfig ["eval"; String "a" (String "010"%char "exit")]
                 false LogUnset 7 "site" 3 11 "develop" "example.com" 80 24)
              "eval a" "exit") as [H _];
    try (vm_compute; reflexivity).
  rewrite (H eq_refl). split; vm_compute; reflexivity.
Defined.
